(** * CLAWBOT terminal: the simulated-state loop and the command interpreter

    A shallow embedding of [src/App.tsx]: the agent roster, the bounded log,
    the boot sequence, the periodic tick and [handleCommand], run on a
    discrete-event model of the browser's timer queue.

    Numbers.  JavaScript numbers are modelled exactly: the percentages
    [cpu] and [memory] as rationals ([Q]), counters and millisecond clocks
    as integers ([Z]).  The program never produces NaN or an infinity
    ([generateAgent] yields integers, [Math.random] finite values), and
    none of the properties below depends on the rounding of a sum.

    Strings are the UTF-8 bytes of the JavaScript string.  [trim] removes
    the white space of the language, multi-byte code points included.
    [toLowerCase] and [toUpperCase] map the ASCII letters; the interpreter
    only compares the lowercased line with its keywords, and no letter
    outside ASCII lowercases to a letter of a keyword.

    Time.  [now] is the clock in milliseconds.  [setTimeout f d] queues [f]
    with due time [now + d]; the event loop fires the pending timer with the
    least due time, creation order breaking ties.  Closures handed to
    [setTimeout] are represented by the constructors of [Callback], one per
    callback body of the source. *)

From Stdlib Require Import ZArith QArith Qround Qminmax.
From Stdlib Require Import String Ascii List Sorted Bool Lia Lqa DecimalString.
Import ListNotations.

Open Scope string_scope.
Open Scope Z_scope.

(** ** Data model *)

Inductive Status := st_active | st_idle | st_error | st_offline.

Inductive LogType := ty_info | ty_success | ty_warning | ty_error | ty_system.

(** The string a status value is at run time. *)
Definition status_str (s : Status) : string :=
  match s with
  | st_active => "active"
  | st_idle => "idle"
  | st_error => "error"
  | st_offline => "offline"
  end.

Definition Status_eqb (a b : Status) : bool :=
  match a, b with
  | st_active, st_active | st_idle, st_idle
  | st_error, st_error | st_offline, st_offline => true
  | _, _ => false
  end.

Module Agent.
Record t := mk {
  id : string;
  name : string;
  status : Status;
  task : string;
  cpu : Q;
  memory : Q;
  uptime : Z;
  lastPing : Z
}.
End Agent.

(** [id] is [`log-${Date.now()}-${Math.random()}`]; it is kept as the pair
    of numbers the template formats. *)
Module LogEntry.
Record t := mk {
  id : Z * Q;
  timestamp : Z;
  agent : string;
  type : LogType;
  message : string
}.
End LogEntry.

Definition AGENT_NAMES : list string :=
  ["NEXUS-7"; "PHANTOM-X"; "CIPHER-9"; "VORTEX-3"; "ECHO-5"; "PULSE-2"].

Definition TASKS : list string :=
  ["Analyzing data streams...";
   "Executing build pipeline...";
   "Scanning network nodes...";
   "Processing neural weights...";
   "Compiling source modules...";
   "Indexing knowledge base...";
   "Running diagnostics...";
   "Optimizing parameters..."].

(** ** JavaScript primitives *)

(** [String(n)] for an integer [n]. *)
Definition show_int (z : Z) : string := NilZero.string_of_int (Z.to_int z).

(** [Math.floor] and [Math.round] (halves round up). *)
Definition Math_floor (q : Q) : Z := Qfloor q.
Definition Math_round (q : Q) : Z := Qfloor (q + (1 # 2)).

Definition Math_max (a b : Q) : Q := Qmax a b.
Definition Math_min (a b : Q) : Q := Qmin a b.

(** [a > b] on numbers. *)
Definition gt (a b : Q) : bool := negb (Qle_bool a b).

Definition is_upper (c : ascii) : bool :=
  let n := nat_of_ascii c in (65 <=? n)%nat && (n <=? 90)%nat.
Definition is_lower (c : ascii) : bool :=
  let n := nat_of_ascii c in (97 <=? n)%nat && (n <=? 122)%nat.

Definition lower_char (c : ascii) : ascii :=
  if is_upper c then ascii_of_nat (nat_of_ascii c + 32) else c.
Definition upper_char (c : ascii) : ascii :=
  if is_lower c then ascii_of_nat (nat_of_ascii c - 32) else c.

Fixpoint map_string (f : ascii -> ascii) (s : string) : string :=
  match s with
  | EmptyString => EmptyString
  | String c r => String (f c) (map_string f r)
  end.

Definition toLowerCase : string -> string := map_string lower_char.
Definition toUpperCase : string -> string := map_string upper_char.

(** White space removed by [trim], on the UTF-8 bytes of the string: the
    ASCII characters tab, line feed, vertical tab, form feed, carriage
    return and space, and the code points U+00A0, U+1680, U+2000 to U+200A,
    U+2028, U+2029, U+202F, U+205F, U+3000 and U+FEFF. *)
Definition is_space (c : ascii) : bool :=
  let n := nat_of_ascii c in ((9 <=? n)%nat && (n <=? 13)%nat) || (n =? 32)%nat.

Definition is_space2 (c1 c2 : ascii) : bool :=
  (nat_of_ascii c1 =? 194)%nat && (nat_of_ascii c2 =? 160)%nat.

Definition is_space3 (c1 c2 c3 : ascii) : bool :=
  let a := nat_of_ascii c1 in
  let b := nat_of_ascii c2 in
  let c := nat_of_ascii c3 in
  ((a =? 225) && (b =? 154) && (c =? 128))%nat
  || ((a =? 226) && (b =? 128)
      && (((128 <=? c) && (c <=? 138)) || (c =? 168) || (c =? 169) || (c =? 175)))%nat
  || ((a =? 226) && (b =? 129) && (c =? 159))%nat
  || ((a =? 227) && (b =? 128) && (c =? 128))%nat
  || ((a =? 239) && (b =? 187) && (c =? 191))%nat.

Fixpoint trimStart (s : string) : string :=
  match s with
  | EmptyString => EmptyString
  | String c1 r1 =>
      if is_space c1 then trimStart r1
      else match r1 with
           | EmptyString => s
           | String c2 r2 =>
               if is_space2 c1 c2 then trimStart r2
               else match r2 with
                    | EmptyString => s
                    | String c3 r3 =>
                        if is_space3 c1 c2 c3 then trimStart r3 else s
                    end
           end
  end.

(** [trimEnd] cuts the string where nothing but white space follows. *)
Fixpoint trimEnd (s : string) : string :=
  match s with
  | EmptyString => EmptyString
  | String c r =>
      match trimStart s with
      | EmptyString => EmptyString
      | _ => String c (trimEnd r)
      end
  end.

Definition trim (s : string) : string := trimEnd (trimStart s).

(** [l.slice(-n)]: the last [n] elements, all of [l] when it is shorter. *)
Definition slice_last {A} (n : nat) (l : list A) : list A :=
  skipn (length l - n) l.

(** ** The world: React state, timer queue, clock and random source *)

(** The bodies of the closures passed to [setTimeout]. *)
Inductive Callback :=
| CbAddLog (agent : string) (type : LogType) (message : string)
    (* () => addLog(agent, type, message) *)
| CbStatusLine (a : Agent.t)
    (* the status/ls closure over one captured agent *)
| CbBootComplete
    (* () => setBootComplete(true) *)
| CbRestartDone.
    (* the restart completion closure *)

Record Timer := mkTimer { timer_id : nat; due : Z; callback : Callback }.

(** [agents_gen] stands for the identity of the [agents] array: every
    [setAgents] builds a new array, and the tick effect, which lists
    [agents] among its dependencies, compares identities.
    [interval] is the live [setInterval] of the tick effect, as its timer id
    and next due time. *)
Record World := mkWorld {
  now : Z;
  random_src : nat -> Q;
  random_pos : nat;
  agents : list Agent.t;
  agents_gen : nat;
  logs : list LogEntry.t;
  bootComplete : bool;
  timers : list Timer;
  next_timer : nat;
  interval : option (nat * Z)
}.

(** A computation of the page: it reads and writes the world and may throw
    ([None]), in which case the rest of the callback does not run. *)
Definition M (A : Type) : Type := World -> option A * World.

Definition ret {A} (a : A) : M A := fun w => (Some a, w).
Definition throw {A} : M A := fun w => (None, w).
Definition bind {A B} (m : M A) (f : A -> M B) : M B :=
  fun w => match m w with
           | (Some a, w') => f a w'
           | (None, w') => (None, w')
           end.

Declare Scope page_scope.
Delimit Scope page_scope with page.
Notation "x <- m ;; k" := (bind m (fun x => k))
  (at level 61, m at next level, right associativity) : page_scope.
Notation "m ;;; k" := (bind m (fun _ => k))
  (at level 61, right associativity) : page_scope.
Open Scope page_scope.

(** The world a computation leaves behind. *)
Definition run {A} (m : M A) (w : World) : World := snd (m w).

Definition Math_random : M Q := fun w =>
  (Some (random_src w (random_pos w)),
   mkWorld (now w) (random_src w) (S (random_pos w)) (agents w) (agents_gen w)
           (logs w) (bootComplete w) (timers w) (next_timer w) (interval w)).

Definition Date_now : M Z := fun w => (Some (now w), w).

Definition getAgents : M (list Agent.t) := fun w => (Some (agents w), w).

Definition putLogs (l : list LogEntry.t) : M unit := fun w =>
  (Some tt,
   mkWorld (now w) (random_src w) (random_pos w) (agents w) (agents_gen w)
           l (bootComplete w) (timers w) (next_timer w) (interval w)).

Definition getLogs : M (list LogEntry.t) := fun w => (Some (logs w), w).

Definition putAgents (l : list Agent.t) : M unit := fun w =>
  (Some tt,
   mkWorld (now w) (random_src w) (random_pos w) l (S (agents_gen w))
           (logs w) (bootComplete w) (timers w) (next_timer w) (interval w)).

Definition setBootComplete (b : bool) : M unit := fun w =>
  (Some tt,
   mkWorld (now w) (random_src w) (random_pos w) (agents w) (agents_gen w)
           (logs w) b (timers w) (next_timer w) (interval w)).

(** [setTimeout(cb, delay)] *)
Definition setTimeout (cb : Callback) (delay : Z) : M unit := fun w =>
  (Some tt,
   mkWorld (now w) (random_src w) (random_pos w) (agents w) (agents_gen w)
           (logs w) (bootComplete w)
           (timers w ++ [mkTimer (next_timer w) (now w + delay) cb])
           (S (next_timer w)) (interval w)).

Fixpoint mapM {A B} (f : A -> M B) (l : list A) : M (list B) :=
  match l with
  | [] => ret []
  | a :: r => b <- f a ;; bs <- mapM f r ;; ret (b :: bs)
  end.

(** [l.forEach((x, i) => f x i)], from index [i]. *)
Fixpoint forEach_from {A} (f : A -> Z -> M unit) (i : Z) (l : list A) : M unit :=
  match l with
  | [] => ret tt
  | a :: r => f a i ;;; forEach_from f (i + 1) r
  end.

Definition forEach {A} (f : A -> Z -> M unit) (l : list A) : M unit :=
  forEach_from f 0 l.

(** [setState(prev => f prev)] for the two pieces of state with a functional
    updater. *)
Definition setLogs (f : list LogEntry.t -> M (list LogEntry.t)) : M unit :=
  prev <- getLogs ;; l <- f prev ;; putLogs l.

Definition setAgents (f : list Agent.t -> M (list Agent.t)) : M unit :=
  prev <- getAgents ;; l <- f prev ;; putAgents l.

(** ** Roster creation *)

Definition statuses : list Status :=
  [st_active; st_active; st_active; st_idle; st_error; st_offline].

(** [arr[Math.floor(Math.random() * arr.length)]].  A draw in [0,1) keeps
    the index inside the array; the default stands for the [undefined] that
    only a draw outside that range could produce. *)
Definition pick {A} (d : A) (l : list A) : M A :=
  r <- Math_random ;;
  ret (nth (Z.to_nat (Math_floor (r * inject_Z (Z.of_nat (length l))))) l d).

Definition generateAgent (index : Z) : M Agent.t :=
  let nm := nth (Z.to_nat (index mod Z.of_nat (length AGENT_NAMES))) AGENT_NAMES "" in
  st <- pick st_active statuses ;;
  tk <- pick "" TASKS ;;
  c <- Math_random ;;
  m <- Math_random ;;
  u <- Math_random ;;
  t <- Date_now ;;
  p <- Math_random ;;
  ret (Agent.mk ("agent-" ++ show_int index) nm st tk
         (inject_Z (Math_floor (c * 100)))
         (inject_Z (Math_floor (m * 100)))
         (Math_floor (u * 86400))
         (t - Math_floor (p * 10000))).

(** ** The log *)

Definition addLog (agent : string) (type : LogType) (message : string) : M unit :=
  setLogs (fun prev =>
    t <- Date_now ;;
    r <- Math_random ;;
    ts <- Date_now ;;
    ret (slice_last 100 prev ++ [LogEntry.mk (t, r) ts agent type message])%list).

(** ** Boot sequence *)

Definition bootMessages : list (Z * string) :=
  [(300, "Initializing CLAWBOT Terminal v2.0.7...");
   (800, "Loading neural interface drivers...");
   (1200, "Establishing quantum-encrypted connections...");
   (1600, "Synchronizing agent mesh network...");
   (2000, "Boot sequence complete. All systems nominal.")].

Definition boot_effect : M unit :=
  forEach (fun dm _ => setTimeout (CbAddLog "SYSTEM" ty_system (snd dm)) (fst dm))
          bootMessages ;;;
  setTimeout CbBootComplete 2500.

(** ** The periodic tick *)

Definition logTypes : list LogType :=
  [ty_info; ty_info; ty_info; ty_success; ty_warning].

Definition tick_messages : M (list string) :=
  r1 <- Math_random ;;
  r2 <- Math_random ;;
  r3 <- Math_random ;;
  r4 <- Math_random ;;
  ret ["Processing batch request #" ++ show_int (Math_floor (r1 * 9999));
       "Memory allocation optimized";
       "Task completed successfully";
       "Network latency: " ++ show_int (Math_floor (r2 * 50)) ++ "ms";
       "Cache hit ratio: " ++ show_int (85 + Math_floor (r3 * 15)) ++ "%";
       "Checkpoint saved";
       "Model weights synchronized";
       "Request queue depth: " ++ show_int (Math_floor (r4 * 100))].

(** [Math.max(0, Math.min(100, v + (Math.random() - 0.5) * spread))] *)
Definition perturb (v r spread : Q) : Q :=
  Math_max 0 (Math_min 100 (v + (r - (1 # 2)) * spread))%Q.

(** The updater of lines 377-383, for one agent. *)
Definition update_agent (a : Agent.t) : M Agent.t :=
  rc <- Math_random ;;
  rm <- Math_random ;;
  ping <- (if Status_eqb (Agent.status a) st_offline
           then ret (Agent.lastPing a) else Date_now) ;;
  ret (Agent.mk (Agent.id a) (Agent.name a) (Agent.status a) (Agent.task a)
         (perturb (Agent.cpu a) rc 20)
         (perturb (Agent.memory a) rm 10)
         (Agent.uptime a + 1)
         ping).

(** The first half of the interval callback, "Random log generation".
    [randomAgent] is [undefined] when the index is outside the roster, and
    reading its [name] then throws. *)
Definition tick_log (ags : list Agent.t) : M unit :=
  r <- Math_random ;;
  let i := Math_floor (r * inject_Z (Z.of_nat (length ags))) in
  let randomAgent := if i <? 0 then None else nth_error ags (Z.to_nat i) in
  messages <- tick_messages ;;
  r <- Math_random ;;
  if gt r (3 # 10) then
    nm <- match randomAgent with
          | Some a => ret (Agent.name a)
          | None => throw
          end ;;
    ty <- pick ty_info logTypes ;;
    msg <- pick "" messages ;;
    addLog nm ty msg
  else ret tt.

(** The interval callback: the log half, then "Update agent metrics". *)
Definition tick : M unit :=
  ags <- getAgents ;;
  tick_log ags ;;;
  setAgents (mapM update_agent).

(** The tick effect: the cleanup of the previous run clears its interval;
    the body installs a new one only once the boot flag is set. *)
Definition tick_effect : M unit := fun w =>
  (Some tt,
   if bootComplete w
   then mkWorld (now w) (random_src w) (random_pos w) (agents w) (agents_gen w)
                (logs w) (bootComplete w) (timers w) (S (next_timer w))
                (Some (next_timer w, now w + 1500))
   else mkWorld (now w) (random_src w) (random_pos w) (agents w) (agents_gen w)
                (logs w) (bootComplete w) (timers w) (next_timer w) None).

(** ** The command interpreter *)

Definition with_status (s : Status) (a : Agent.t) : Agent.t :=
  Agent.mk (Agent.id a) (Agent.name a) s (Agent.task a)
           (Agent.cpu a) (Agent.memory a) (Agent.uptime a) (Agent.lastPing a).

Definition helpLines : list string :=
  ["Available commands:";
   "  status  - Show all agent statuses";
   "  deploy  - Deploy updates to all agents";
   "  restart - Restart all agents";
   "  scan    - Scan network for anomalies";
   "  clear   - Clear terminal output"].

Definition status_line (a : Agent.t) : string :=
  Agent.name a ++ ": " ++ toUpperCase (status_str (Agent.status a))
    ++ " | CPU: " ++ show_int (Math_round (Agent.cpu a))
    ++ "% | MEM: " ++ show_int (Math_round (Agent.memory a)) ++ "%".

Definition status_type (a : Agent.t) : LogType :=
  if Status_eqb (Agent.status a) st_error then ty_error else ty_info.

Definition unknown_message (cmd : string) : string :=
  "Unknown command: " ++ cmd ++ ". Type 'help' for available commands.".

Definition handleCommand (cmd : string) : M unit :=
  let cmdLower := trim (toLowerCase cmd) in
  addLog "USER" ty_info ("$ " ++ cmd) ;;;
  if (cmdLower =? "status")%string || (cmdLower =? "ls")%string then
    ags <- getAgents ;;
    forEach (fun agent i => setTimeout (CbStatusLine agent) (i * 100)) ags
  else if (cmdLower =? "deploy")%string then
    addLog "SYSTEM" ty_system "Initiating deployment sequence..." ;;;
    setTimeout (CbAddLog "SYSTEM" ty_success
                  "Deployment successful. All agents updated.") 2000
  else if (cmdLower =? "restart")%string then
    addLog "SYSTEM" ty_warning "Restarting all agents..." ;;;
    setAgents (fun prev => ret (map (with_status st_idle) prev)) ;;;
    setTimeout CbRestartDone 3000
  else if (cmdLower =? "scan")%string then
    addLog "SYSTEM" ty_system "Scanning network for anomalies..." ;;;
    setTimeout (CbAddLog "SYSTEM" ty_success
                  "Scan complete. No threats detected.") 2500
  else if (cmdLower =? "help")%string then
    forEach (fun line i => setTimeout (CbAddLog "SYSTEM" ty_info line) (i * 50))
            helpLines
  else if (cmdLower =? "clear")%string then
    putLogs []
  else
    addLog "SYSTEM" ty_error (unknown_message cmd).

(** [CommandInput.handleSubmit]: blank input is not submitted. *)
Definition handleSubmit (command : string) : M unit :=
  if (trim command =? "")%string then ret tt else handleCommand command.

(** What each queued closure does when it fires. *)
Definition run_callback (cb : Callback) : M unit :=
  match cb with
  | CbAddLog a t m => addLog a t m
  | CbStatusLine a => addLog "SYSTEM" (status_type a) (status_line a)
  | CbBootComplete => setBootComplete true
  | CbRestartDone =>
      setAgents (fun prev => ret (map (with_status st_active) prev)) ;;;
      addLog "SYSTEM" ty_success "All agents restarted successfully."
  end.

(** ** Rendering and the event loop *)

Definition set_now (t : Z) (w : World) : World :=
  mkWorld t (random_src w) (random_pos w) (agents w) (agents_gen w)
          (logs w) (bootComplete w) (timers w) (next_timer w) (interval w).

Definition set_timers (l : list Timer) (w : World) : World :=
  mkWorld (now w) (random_src w) (random_pos w) (agents w) (agents_gen w)
          (logs w) (bootComplete w) l (next_timer w) (interval w).

Definition set_interval (i : option (nat * Z)) (w : World) : World :=
  mkWorld (now w) (random_src w) (random_pos w) (agents w) (agents_gen w)
          (logs w) (bootComplete w) (timers w) (next_timer w) i.

(** After a handler has run React renders again; the tick effect is re-run
    when one of its dependencies [bootComplete], [agents] changed. *)
Definition deps_changed (before after : World) : bool :=
  negb (Bool.eqb (bootComplete before) (bootComplete after))
  || negb (agents_gen before =? agents_gen after)%nat.

Definition commit (before after : World) : World :=
  if deps_changed before after then run tick_effect after else after.

(** The first render: the roster of six, then both effects in order. *)
Definition initial (start : Z) (rnd : nat -> Q) : World :=
  mkWorld start rnd 0 [] 0 [] false [] 0 None.

Definition mount (start : Z) (rnd : nat -> Q) : World :=
  run (roster <- mapM generateAgent [0; 1; 2; 3; 4; 5] ;;
       putAgents roster ;;;
       boot_effect ;;;
       tick_effect)
      (initial start rnd).

(** Order of the timer queue: due time, then creation. *)
Definition earlier (d1 : Z) (i1 : nat) (d2 : Z) (i2 : nat) : bool :=
  (d1 <? d2) || ((d1 =? d2) && (i1 <? i2)%nat).

Fixpoint earliest (l : list Timer) : option Timer :=
  match l with
  | [] => None
  | t :: r =>
      match earliest r with
      | Some t' =>
          if earlier (due t') (timer_id t') (due t) (timer_id t)
          then Some t' else Some t
      | None => Some t
      end
  end.

Definition remove_timer (i : nat) (l : list Timer) : list Timer :=
  filter (fun t => negb (timer_id t =? i)%nat) l.

Inductive Pending :=
| PTimeout (t : Timer)
| PInterval (i : nat) (d : Z).

Definition next_pending (w : World) : option Pending :=
  match earliest (timers w), interval w with
  | Some t, Some (i, d) =>
      if earlier d i (due t) (timer_id t) then Some (PInterval i d)
      else Some (PTimeout t)
  | Some t, None => Some (PTimeout t)
  | None, Some (i, d) => Some (PInterval i d)
  | None, None => None
  end.

Definition pending_due (p : Pending) : Z :=
  match p with
  | PTimeout t => due t
  | PInterval _ d => d
  end.

(** What the event loop reports of one turn: the time and what ran. *)
Inductive Ran :=
| RanCallback (cb : Callback)
| RanTick.

Definition Fired : Type := Z * Ran.

(** One turn of the event loop: the clock moves to the due time of the
    first pending timer, which runs; a one-shot timer leaves the queue, the
    interval is armed again 1500ms on. *)
Definition fire (w : World) : option (Fired * World) :=
  match next_pending w with
  | None => None
  | Some (PTimeout t) =>
      let w1 := set_timers (remove_timer (timer_id t) (timers w))
                           (set_now (Z.max (now w) (due t)) w) in
      Some ((now w1, RanCallback (callback t)),
            commit w1 (run (run_callback (callback t)) w1))
  | Some (PInterval i d) =>
      let w1 := set_interval (Some (i, d + 1500))
                             (set_now (Z.max (now w) d) w) in
      Some ((now w1, RanTick), commit w1 (run tick w1))
  end.

(** What happens to the page: a timer fires, or the user submits a line at
    time [at], which must not lie in the past nor after a timer that is
    still pending. *)
Inductive Input :=
| Fire
| Submit (at_time : Z) (cmd : string).

Definition can_submit (t : Z) (w : World) : bool :=
  (now w <=? t)
  && match next_pending w with
     | Some p => t <=? pending_due p
     | None => true
     end.

Definition step (i : Input) (w : World) : option (list Fired * World) :=
  match i with
  | Fire =>
      match fire w with
      | Some (f, w') => Some ([f], w')
      | None => None
      end
  | Submit t cmd =>
      if can_submit t w
      then let w1 := set_now t w in
           Some ([], commit w1 (run (handleSubmit cmd) w1))
      else None
  end.

Fixpoint exec (l : list Input) (w : World) : option (list Fired * World) :=
  match l with
  | [] => Some ([], w)
  | i :: r =>
      match step i w with
      | Some (f1, w1) =>
          match exec r w1 with
          | Some (f2, w2) => Some ((f1 ++ f2)%list, w2)
          | None => None
          end
      | None => None
      end
  end.

(** ** Display helpers and the metrics panel *)

(** [s.padStart(n, c)] for a pad string of one character: [s] is never
    shortened. *)
Definition padStart (n : nat) (c : ascii) (s : string) : string :=
  string_of_list_ascii (repeat c (n - String.length s)) ++ s.

(** [formatUptime], on a whole number of seconds: [/] under [Math.floor]
    rounds down, [%] keeps the sign of its left operand. *)
Definition formatUptime (seconds : Z) : string :=
  let h := seconds / 3600 in
  let m := Z.rem seconds 3600 / 60 in
  let s := Z.rem seconds 60 in
  padStart 2 "0" (show_int h) ++ ":" ++ padStart 2 "0" (show_int m)
    ++ ":" ++ padStart 2 "0" (show_int s).

Definition activeCount (ags : list Agent.t) : nat :=
  length (filter (fun a => Status_eqb (Agent.status a) st_active) ags).

Definition errorCount (ags : list Agent.t) : nat :=
  length (filter (fun a => Status_eqb (Agent.status a) st_error) ags).

(** [agents.reduce((acc, a) => acc + f(a), 0)] *)
Definition total (f : Agent.t -> Q) (ags : list Agent.t) : Q :=
  fold_left (fun acc a => (acc + f a)%Q) ags 0%Q.

(** [Math.round(total / agents.length)].  With an empty roster the source
    divides 0 by 0 and shows NaN, which is [None] here. *)
Definition average (f : Agent.t -> Q) (ags : list Agent.t) : option Z :=
  match ags with
  | [] => None
  | _ => Some (Math_round (total f ags / inject_Z (Z.of_nat (length ags))))
  end.

Definition avgCpu : list Agent.t -> option Z := average Agent.cpu.
Definition avgMem : list Agent.t -> option Z := average Agent.memory.

(** The colour of a tile: [x > 80 ? '#ff006e' : '#00d4ff'], a comparison
    with NaN being false. *)
Definition load_color (x : option Z) : string :=
  match x with
  | Some z => if 80 <? z then "#ff006e" else "#00d4ff"
  | None => "#00d4ff"
  end.

Definition error_color (n : nat) : string :=
  if (0 <? n)%nat then "#ff006e" else "#00ff9d".

(** ** Selecting an agent card *)

(** The [onClick] of a card: [selectedAgent === agent.id ? null : agent.id]. *)
Definition select (selectedAgent : option string) (id : string) : option string :=
  match selectedAgent with
  | Some s => if (s =? id)%string then None else Some id
  | None => Some id
  end.

(** [isSelected] of a card. *)
Definition isSelected (selectedAgent : option string) (a : Agent.t) : bool :=
  match selectedAgent with
  | Some s => (s =? Agent.id a)%string
  | None => false
  end.

(** ** The command line: [CommandInput] *)

Record Prompt := mkPrompt {
  command : string;
  history : list string;
  historyIndex : Z
}.

Inductive Key := ArrowUp | ArrowDown | OtherKey.

(** [history[i] || '']: the empty string when the index is outside the
    array. *)
Definition entry_or_empty (h : list string) (i : Z) : string :=
  if i <? 0 then "" else nth (Z.to_nat i) h "".

Definition handleKeyDown (k : Key) (p : Prompt) : Prompt :=
  let len := Z.of_nat (length (history p)) in
  match k with
  | ArrowUp =>
      if 0 <? len then
        let newIndex := if historyIndex p <? len - 1
                        then historyIndex p + 1 else historyIndex p in
        mkPrompt (entry_or_empty (history p) (len - 1 - newIndex))
                 (history p) newIndex
      else p
  | ArrowDown =>
      let newIndex := if 0 <? historyIndex p then historyIndex p - 1 else -1 in
      mkPrompt (if newIndex =? -1 then ""
                else entry_or_empty (history p) (len - 1 - newIndex))
               (history p) newIndex
  | OtherKey => p
  end.

(** The [onChange] of the input. *)
Definition typeText (s : string) (p : Prompt) : Prompt :=
  mkPrompt s (history p) (historyIndex p).

(** What [CommandInput.handleSubmit] does to its own state; what it hands
    to the page is [handleSubmit (command p)]. *)
Definition submitPrompt (p : Prompt) : Prompt :=
  if (trim (command p) =? "")%string then p
  else mkPrompt "" (history p ++ [command p]) (-1).

Inductive PromptEvent :=
| PType (s : string)
| PKey (k : Key)
| PSubmit.

Definition prompt_step (e : PromptEvent) (p : Prompt) : Prompt :=
  match e with
  | PType s => typeText s p
  | PKey k => handleKeyDown k p
  | PSubmit => submitPrompt p
  end.

Definition prompt_run (es : list PromptEvent) (p : Prompt) : Prompt :=
  fold_left (fun q e => prompt_step e q) es p.

(** The lines the events hand to the page, in order. *)
Fixpoint submitted (es : list PromptEvent) (p : Prompt) : list string :=
  match es with
  | [] => []
  | e :: r =>
      match e with
      | PSubmit =>
          if (trim (command p) =? "")%string then submitted r (prompt_step e p)
          else command p :: submitted r (prompt_step e p)
      | _ => submitted r (prompt_step e p)
      end
  end.

(** ** The header's [TypewriterText] *)

(** The state of one run of the effect over the text [text], a list of
    code units: the counter [i] of the closure, the two pieces of React
    state, whether the interval is still installed, and the due time of the
    timeout that hides the cursor, once queued. *)
Record Typewriter {A : Type} := mkTypewriter {
  tw_i : nat;
  displayText : list A;
  showCursor : bool;
  tw_interval : bool;
  tw_hide : option Z
}.
Arguments Typewriter : clear implicits.

Definition typewriter_start {A} : Typewriter A :=
  mkTypewriter A 0 [] true true None.

(** The interval callback, run at time [t]. *)
Definition typewriter_tick {A} (text : list A) (t : Z) (s : Typewriter A)
  : Typewriter A :=
  if (tw_i s <? length text)%nat
  then mkTypewriter A (S (tw_i s)) (firstn (tw_i s + 1) text)
                    (showCursor s) (tw_interval s) (tw_hide s)
  else mkTypewriter A (tw_i s) (displayText s) (showCursor s) false
                    (Some (t + 500)).

(** The interval fires every [delay] ms from the start until it is
    cleared; [typewriter_after k] is the state once it has had [k]
    occasions to fire. *)
Fixpoint typewriter_after {A} (text : list A) (start delay : Z) (k : nat)
  : Typewriter A :=
  match k with
  | O => typewriter_start
  | S k' =>
      let s := typewriter_after text start delay k' in
      if tw_interval s
      then typewriter_tick text (start + Z.of_nat k * delay) s
      else s
  end.

(** The timeout callback [() => setShowCursor(false)]. *)
Definition typewriter_hide {A} (s : Typewriter A) : Typewriter A :=
  mkTypewriter A (tw_i s) (displayText s) false (tw_interval s) None.

(** ** Vocabulary of the specification *)

(** [Math.random()] returns a number in [0,1). *)
Definition unit_draws (w : World) : Prop :=
  forall n, (0 <= random_src w n)%Q /\ (random_src w n < 1)%Q.

(** A percentage: a value of the interval [0,100]. *)
Definition percent (q : Q) : Prop := (0 <= q)%Q /\ (q <= 100)%Q.

(** The world after [n] more draws from the random source. *)
Definition skip_draws (n : nat) (w : World) : World :=
  mkWorld (now w) (random_src w) (n + random_pos w) (agents w) (agents_gen w)
          (logs w) (bootComplete w) (timers w) (next_timer w) (interval w).

(** How one tick at time [t] relates an agent to its successor. *)
Record ticked (t : Z) (a a' : Agent.t) : Prop := {
  ticked_id : Agent.id a' = Agent.id a;
  ticked_name : Agent.name a' = Agent.name a;
  ticked_status : Agent.status a' = Agent.status a;
  ticked_task : Agent.task a' = Agent.task a;
  ticked_cpu : percent (Agent.cpu a');
  ticked_memory : percent (Agent.memory a');
  ticked_uptime : Agent.uptime a' = Agent.uptime a + 1;
  ticked_ping :
    Agent.lastPing a' =
    if Status_eqb (Agent.status a) st_offline then Agent.lastPing a else t
}.

(** A computation [m] keeps the relation [R] between the world it starts in
    and the world it leaves, whether it returns or throws. *)
Definition preserves {A} (R : World -> World -> Prop) (m : M A) : Prop :=
  forall w, R w (run m w).

(** Only the log and the position in the random source differ. *)
Record log_only (w w' : World) : Prop := {
  lo_now : now w' = now w;
  lo_random : random_src w' = random_src w;
  lo_agents : agents w' = agents w;
  lo_gen : agents_gen w' = agents_gen w;
  lo_boot : bootComplete w' = bootComplete w;
  lo_timers : timers w' = timers w;
  lo_next : next_timer w' = next_timer w;
  lo_interval : interval w' = interval w
}.

(** The entry [addLog agent type message] builds in the world [w], and the
    world it leaves. *)
Definition log_entry (w : World) (a : string) (t : LogType) (m : string)
  : LogEntry.t :=
  LogEntry.mk (now w, random_src w (random_pos w)) (now w) a t m.

Definition logged (a : string) (t : LogType) (m : string) (w : World) : World :=
  mkWorld (now w) (random_src w) (S (random_pos w)) (agents w) (agents_gen w)
          (slice_last 100 (logs w) ++ [log_entry w a t m])
          (bootComplete w) (timers w) (next_timer w) (interval w).

(** The keywords of the interpreter. *)
Definition keywords : list string :=
  ["status"; "ls"; "deploy"; "restart"; "scan"; "help"; "clear"].

(** A status as the status line prints it. *)
Definition STATUS (s : Status) : string :=
  match s with
  | st_active => "ACTIVE"
  | st_idle => "IDLE"
  | st_error => "ERROR"
  | st_offline => "OFFLINE"
  end.

(** [z] is [q] rounded to an integer, halves going up. *)
Definition rounds_to (q : Q) (z : Z) : Prop :=
  (inject_Z z - (1 # 2) <= q)%Q /\ (q < inject_Z z + (1 # 2))%Q.

(** The timers the status command queues for the agents [ags], the first of
    them with identifier [i] and index [k], submitted at time [t0]. *)
Fixpoint status_timers (i : nat) (t0 : Z) (k : Z) (ags : list Agent.t)
  : list Timer :=
  match ags with
  | [] => []
  | a :: r =>
      mkTimer i (t0 + k * 100) (CbStatusLine a) :: status_timers (S i) t0 (k + 1) r
  end.

(** The world once the timers [new] have been queued. *)
Definition queued (new : list Timer) (w : World) : World :=
  mkWorld (now w) (random_src w) (random_pos w) (agents w) (agents_gen w)
          (logs w) (bootComplete w) (timers w ++ new)
          (length new + next_timer w) (interval w).

(** The closures queued by the boot effect: the boot messages (the only
    delayed entries of severity "system") and the one that sets the flag. *)
Definition boot_callback (cb : Callback) : bool :=
  match cb with
  | CbBootComplete => true
  | CbAddLog _ ty_system _ => true
  | _ => false
  end.

(** A timer a handler queues in the world [w]: not due in the past, with
    a new identifier, and not of the boot kind. *)
Definition fresh_timer (w : World) (t : Timer) : Prop :=
  now w <= due t /\ (next_timer w <= timer_id t)%nat
  /\ boot_callback (callback t) = false.

(** What a handler may do to the scheduling state: it leaves the clock, the
    random source, the boot flag and the interval alone, and may queue
    timers of its own. *)
Record sched_effect (w w' : World) : Prop := {
  se_now : now w' = now w;
  se_random : random_src w' = random_src w;
  se_boot : bootComplete w' = bootComplete w;
  se_interval : interval w' = interval w;
  se_next : (next_timer w <= next_timer w')%nat;
  se_timers : exists new, timers w' = (timers w ++ new)%list
                          /\ Forall (fresh_timer w) new
}.

(** The roster keeps its agents, in order, each with the uptime it had. *)
Definition same_uptime (w w' : World) : Prop :=
  Forall2 (fun a a' => Agent.uptime a' = Agent.uptime a) (agents w) (agents w').

(** ** The boot sequence, as the specification words it *)

Definition boot_timers (start : Z) : list Timer :=
  [mkTimer 0 (start + 300)
     (CbAddLog "SYSTEM" ty_system "Initializing CLAWBOT Terminal v2.0.7...");
   mkTimer 1 (start + 800)
     (CbAddLog "SYSTEM" ty_system "Loading neural interface drivers...");
   mkTimer 2 (start + 1200)
     (CbAddLog "SYSTEM" ty_system "Establishing quantum-encrypted connections...");
   mkTimer 3 (start + 1600)
     (CbAddLog "SYSTEM" ty_system "Synchronizing agent mesh network...");
   mkTimer 4 (start + 2000)
     (CbAddLog "SYSTEM" ty_system "Boot sequence complete. All systems nominal.");
   mkTimer 5 (start + 2500) CbBootComplete].

Definition fired_of (t : Timer) : Fired := (due t, RanCallback (callback t)).

Definition boot_trace (start : Z) : list Fired := map fired_of (boot_timers start).

(** The turn of the event loop that sets the boot flag. *)
Definition boot_done (start : Z) : Fired := (start + 2500, RanCallback CbBootComplete).

Definition is_boot (f : Fired) : bool :=
  match snd f with
  | RanCallback cb => boot_callback cb
  | RanTick => false
  end.

Definition is_tick (f : Fired) : bool :=
  match snd f with
  | RanTick => true
  | RanCallback _ => false
  end.

Definition boots (h : list Fired) : nat := length (filter is_boot h).

Definition count_ticks (h : list Fired) : nat := length (filter is_tick h).

(** What a log entry shows, its identifier apart. *)
Definition shown (e : LogEntry.t) : Z * string * LogType * string :=
  (LogEntry.timestamp e, LogEntry.agent e, LogEntry.type e, LogEntry.message e).

(** The invariant of a session started at [start], relating the turns of
    the event loop so far to the world they led to. *)
Record session (start : Z) (hist : list Fired) (w : World) : Prop := {
  inv_timely : Forall (fun t => now w <= due t) (timers w);
  inv_next : (6 <= next_timer w)%nat;
  inv_ids : Forall (fun t => boot_callback (callback t) = false ->
                             (6 <= timer_id t)%nat) (timers w);
  inv_pending : filter (fun t => boot_callback (callback t)) (timers w)
                = skipn (boots hist) (boot_timers start);
  inv_fired : filter is_boot hist = firstn (boots hist) (boot_trace start);
  inv_flag : bootComplete w = (6 <=? boots hist)%nat;
  inv_done : bootComplete w = true ->
             In (boot_done start) hist /\ start + 2500 <= now w;
  inv_interval : forall i d, interval w = Some (i, d) ->
                 bootComplete w = true /\ start + 4000 <= d;
  inv_ticks : forall pre t post,
      hist = (pre ++ (t, RanTick) :: post)%list ->
      In (boot_done start) pre /\ start + 4000 <= t
}.

(** The world right after the first render, the roster [ags] apart. *)
Definition booting (start : Z) (rnd : nat -> Q) (p : nat) (ags : list Agent.t)
  (g : nat) : World :=
  mkWorld start rnd p ags g [] false (boot_timers start) 6 None.

(** The five entries the boot sequence logs, as the terminal shows them. *)
Definition boot_log (start : Z) : list (Z * string * LogType * string) :=
  [(start + 300, "SYSTEM", ty_system, "Initializing CLAWBOT Terminal v2.0.7...");
   (start + 800, "SYSTEM", ty_system, "Loading neural interface drivers...");
   (start + 1200, "SYSTEM", ty_system, "Establishing quantum-encrypted connections...");
   (start + 1600, "SYSTEM", ty_system, "Synchronizing agent mesh network...");
   (start + 2000, "SYSTEM", ty_system, "Boot sequence complete. All systems nominal.")].

(** Uptime of every agent grown by [n], the roster otherwise in place. *)
Definition uptime_grown (n : Z) (l l' : list Agent.t) : Prop :=
  Forall2 (fun a a' => Agent.uptime a' = Agent.uptime a + n) l l'.

(** A session that fills the log: the five boot entries, then 48 unknown
    commands typed at 2000ms, two entries each. *)
Definition filling_session : list Input :=
  (repeat Fire 5 ++ repeat (Submit 2000 "x") 48)%list.

Definition half : nat -> Q := fun _ => (1 # 2)%Q.

(** Two worlds to run the program in: a fresh page whose every draw is one
    half, and the same page with metrics far outside [0,100]. *)
Definition demo : World := mount 0 half.

Definition wild (a : Agent.t) : Agent.t :=
  Agent.mk (Agent.id a) (Agent.name a) (Agent.status a) (Agent.task a)
           (Agent.cpu a + 250)%Q (Agent.memory a - 400)%Q
           (Agent.uptime a) (Agent.lastPing a).

Definition demo_wild : World :=
  mkWorld (now demo) (random_src demo) (random_pos demo)
          (map wild (agents demo)) (agents_gen demo) (logs demo)
          (bootComplete demo) (timers demo) (next_timer demo) (interval demo).

(** Sessions used as tests: the page boots and ticks four times, then the
    user types [restart] at 9000ms; and the page boots, then the user types
    [status] at 3000ms. *)
Definition restart_session : list Input :=
  (repeat Fire 10 ++ [Submit 9000 "Restart "])%list.

Definition status_session : list Input :=
  (repeat Fire 6 ++ [Submit 3000 "status"; Fire; Fire])%list.

(** What a test looks at: when each turn ran, and the roster's statuses. *)
Definition times_and_statuses (r : option (list Fired * World))
  : option (list Z * list Status) :=
  option_map (fun p => (map fst (fst p), map Agent.status (agents (snd p)))) r.

Definition last_messages (n : nat) (r : option (list Fired * World))
  : option (list (Z * LogType * string)) :=
  option_map (fun p => map (fun e => (LogEntry.timestamp e, LogEntry.type e,
                                      LogEntry.message e))
                           (slice_last n (logs (snd p)))) r.

(** ** Vocabulary for the rest of the page *)

(** The identifiers of the roster. *)
Definition AGENT_IDS : list string :=
  ["agent-0"; "agent-1"; "agent-2"; "agent-3"; "agent-4"; "agent-5"].

(** The log reads in the order of the clock. *)
Definition chronological (l : list LogEntry.t) : Prop :=
  StronglySorted (fun e1 e2 => LogEntry.timestamp e1 <= LogEntry.timestamp e2) l.

(** What holds of every page, whatever the random source does: the roster
    is the six agents created at start, and the log is short, in the order
    of the clock and not ahead of it. *)
Record steady (w : World) : Prop := {
  st_ids : map Agent.id (agents w) = AGENT_IDS;
  st_names : map Agent.name (agents w) = AGENT_NAMES;
  st_log_length : (length (logs w) <= 101)%nat;
  st_log_order : chronological (logs w);
  st_log_past : Forall (fun e => LogEntry.timestamp e <= now w) (logs w)
}.

(** What holds of the metrics when [Math.random] draws from [0,1). *)
Definition in_range (a : Agent.t) : Prop :=
  percent (Agent.cpu a) /\ percent (Agent.memory a)
  /\ 0 <= Agent.uptime a /\ In (Agent.task a) TASKS.

(** A computation keeps the clock and both invariants. *)
Record keeps_health (w w' : World) : Prop := {
  kh_now : now w' = now w;
  kh_steady : steady w -> steady w';
  kh_range : Forall in_range (agents w) -> Forall in_range (agents w')
}.

(** A freshly generated agent. *)
Record generated (t : Z) (index : Z) (a : Agent.t) : Prop := {
  gen_id : Agent.id a = "agent-" ++ show_int index;
  gen_name : Agent.name a
             = nth (Z.to_nat (index mod 6)) AGENT_NAMES "";
  gen_status : In (Agent.status a) statuses;
  gen_task : In (Agent.task a) TASKS;
  gen_cpu : exists c, Agent.cpu a = inject_Z c /\ 0 <= c <= 99;
  gen_memory : exists m, Agent.memory a = inject_Z m /\ 0 <= m <= 99;
  gen_uptime : 0 <= Agent.uptime a < 86400;
  gen_ping : t - 10000 < Agent.lastPing a <= t
}.

(** The draws from [p] on lie in [0,1). *)
Definition unit_source (rnd : nat -> Q) : Prop :=
  forall n, (0 <= rnd n)%Q /\ (rnd n < 1)%Q.


(** The timers [forEach] queues for the items [l], closure [f], one every
    [gap] ms, the first with identifier [i] and index [k]. *)
Fixpoint staggered {A} (f : A -> Callback) (gap : Z) (i : nat) (t0 : Z) (k : Z)
  (l : list A) : list Timer :=
  match l with
  | [] => []
  | a :: r => mkTimer i (t0 + k * gap) (f a) :: staggered f gap (S i) t0 (k + 1) r
  end.

(** Two decimal digits read back as a number. *)
Definition digit (c : ascii) : Z := Z.of_nat (nat_of_ascii c) - 48.

Definition two_digits (s : string) (n : Z) : bool :=
  match s with
  | String a (String b EmptyString) =>
      (0 <=? digit a) && (digit a <=? 9) && (0 <=? digit b) && (digit b <=? 9)
      && (10 * digit a + digit b =? n)
  | _ => false
  end.

(** A prompt nobody has typed in. *)
Definition prompt0 : Prompt := mkPrompt "" [] (-1).

(** The invariant of the command line: the index is inside the history or
    is -1, and no blank line is ever recorded. *)
Definition prompt_ok (p : Prompt) : Prop :=
  -1 <= historyIndex p < Z.max 0 (Z.of_nat (length (history p)))
  /\ Forall (fun l => trim l <> "") (history p).

(** What a command leaves of the tick effect's dependencies. *)
Record deps_kept (w w' : World) : Prop := {
  dk_agents : agents w' = agents w;
  dk_gen : agents_gen w' = agents_gen w;
  dk_boot : bootComplete w' = bootComplete w;
  dk_interval : interval w' = interval w;
  dk_now : now w' = now w
}.

(** Pages and rosters to try the properties on. *)
Definition booted_page : World :=
  mkWorld 5000 half 0 [] 1 [] true [] 7 (Some (6%nat, 5500)).

Definition nobody : Agent.t := Agent.mk "" "" st_offline "" 0 0 0 0.

Definition two_agents : list Agent.t :=
  [Agent.mk "agent-0" "NEXUS-7" st_active "Running diagnostics..." 12 (155 # 2) 10 0;
   Agent.mk "agent-1" "PHANTOM-X" st_error "Checkpoint" (7 # 2) 100 20 0].

(** ** The program on concrete inputs *)

Example trim_lower_restart : trim (toLowerCase "  ReStart ") = "restart".
Proof. reflexivity. Qed.

Example trim_inner_space : trim " de ploy" = "de ploy".
Proof. reflexivity. Qed.

Example slice_last_short : slice_last 3 [1; 2] = [1; 2].
Proof. reflexivity. Qed.

Example slice_last_long : slice_last 3 [1; 2; 3; 4; 5] = [3; 4; 5].
Proof. reflexivity. Qed.

Example round_half_up : Math_round (5 # 2) = 3 /\ Math_round (249 # 100) = 2.
Proof. split; reflexivity. Qed.

Example perturb_clamps :
  perturb 95 1 20 = 100%Q /\ perturb 3 0 20 = 0%Q
  /\ (perturb 50 (3 # 4) 20 == 55)%Q.
Proof. repeat split; reflexivity. Qed.

Example demo_roster :
  map (fun a => (Agent.id a, Agent.name a, Agent.status a, Agent.uptime a))
      (agents demo)
  = [("agent-0", "NEXUS-7", st_idle, 43200);
     ("agent-1", "PHANTOM-X", st_idle, 43200);
     ("agent-2", "CIPHER-9", st_idle, 43200);
     ("agent-3", "VORTEX-3", st_idle, 43200);
     ("agent-4", "ECHO-5", st_idle, 43200);
     ("agent-5", "PULSE-2", st_idle, 43200)].
Proof. vm_compute. reflexivity. Qed.

(** [restart] at 9000ms: the roster is idle at once, still idle after the
    tick of 10500ms, and active when the completion runs at 12000ms. *)
Example restart_at_once :
  times_and_statuses (exec restart_session demo)
  = Some ([300; 800; 1200; 1600; 2000; 2500; 4000; 5500; 7000; 8500],
          [st_idle; st_idle; st_idle; st_idle; st_idle; st_idle]).
Proof. vm_compute. reflexivity. Qed.

Example restart_completed :
  option_map (fun p => (slice_last 2 (fst p), map Agent.status (agents (snd p))))
             (exec (restart_session ++ [Fire; Fire]) demo)
  = Some ([(10500, RanTick); (12000, RanCallback CbRestartDone)],
          [st_active; st_active; st_active; st_active; st_active; st_active]).
Proof. vm_compute. reflexivity. Qed.

Example status_first_lines :
  last_messages 3 (exec status_session demo)
  = Some [(3000, ty_info, "$ status");
          (3000, ty_info, "NEXUS-7: IDLE | CPU: 50% | MEM: 50%");
          (3100, ty_info, "PHANTOM-X: IDLE | CPU: 50% | MEM: 50%")].
Proof. vm_compute. reflexivity. Qed.

(** A blank line does not reach the interpreter. *)
Example blank_not_submitted :
  logs (run (handleSubmit "   ") demo) = [].
Proof. vm_compute. reflexivity. Qed.

(** ** Reasoning about computations *)

Section Preserves.
Context (R : World -> World -> Prop) {HR : PreOrder R}.

Lemma preserves_ret {A} (a : A) : preserves R (ret a).
Proof. intro w. reflexivity. Qed.

Lemma preserves_throw {A} : preserves R (@throw A).
Proof. intro w. reflexivity. Qed.

Lemma preserves_bind {A B} (m : M A) (f : A -> M B) :
  preserves R m -> (forall a, preserves R (f a)) -> preserves R (bind m f).
Proof.
  intros Hm Hf w. unfold run, bind.
  specialize (Hm w). unfold run in Hm.
  destruct (m w) as [[a|] w1]; cbn in *; [|assumption].
  etransitivity; [eassumption | apply Hf].
Qed.

Lemma preserves_mapM {A B} (f : A -> M B) (l : list A) :
  (forall a, preserves R (f a)) -> preserves R (mapM f l).
Proof.
  intro Hf. induction l as [|a l IH]; cbn [mapM].
  - apply preserves_ret.
  - apply preserves_bind; [apply Hf|]. intro b.
    apply preserves_bind; [apply IH|]. intro bs. apply preserves_ret.
Qed.

Lemma preserves_forEach_from {A} (f : A -> Z -> M unit) (l : list A) :
  forall i, 0 <= i ->
  (forall a j, 0 <= j -> preserves R (f a j)) ->
  preserves R (forEach_from f i l).
Proof.
  induction l as [|a l IH]; intros i Hi Hf; cbn [forEach_from].
  - apply preserves_ret.
  - apply preserves_bind; [apply Hf; assumption|]. intros _.
    apply IH; [lia | assumption].
Qed.

Lemma preserves_forEach {A} (f : A -> Z -> M unit) (l : list A) :
  (forall a j, 0 <= j -> preserves R (f a j)) -> preserves R (forEach f l).
Proof. intro Hf. apply preserves_forEach_from; [lia | assumption]. Qed.
End Preserves.

#[local] Instance log_only_preorder : PreOrder log_only.
Proof.
  split.
  - intro w. constructor; reflexivity.
  - intros a b c [] []. constructor; congruence.
Qed.

Lemma log_only_Math_random : preserves log_only Math_random.
Proof. intro w. constructor; reflexivity. Qed.

Lemma log_only_Date_now : preserves log_only Date_now.
Proof. intro w. constructor; reflexivity. Qed.

Lemma log_only_addLog a t m : preserves log_only (addLog a t m).
Proof. intro w. constructor; reflexivity. Qed.

Lemma log_only_pick {A} (d : A) l : preserves log_only (pick d l).
Proof.
  apply preserves_bind; [exact _ | apply log_only_Math_random |].
  intro r. apply preserves_ret; exact _.
Qed.

Lemma log_only_tick_messages : preserves log_only tick_messages.
Proof.
  unfold tick_messages.
  repeat (apply preserves_bind;
          [exact _ | apply log_only_Math_random | intro]).
  apply preserves_ret; exact _.
Qed.

Lemma log_only_tick_log ags : preserves log_only (tick_log ags).
Proof.
  unfold tick_log.
  apply preserves_bind; [exact _ | apply log_only_Math_random | intro r].
  apply preserves_bind; [exact _ | apply log_only_tick_messages | intro ms].
  apply preserves_bind; [exact _ | apply log_only_Math_random | intro r'].
  destruct (gt r' (3 # 10)); [|apply preserves_ret; exact _].
  apply preserves_bind; [exact _ | | intro nm].
  { destruct (if _ <? 0 then _ else _);
      [apply preserves_ret | apply preserves_throw]; exact _. }
  apply preserves_bind; [exact _ | apply log_only_pick | intro ty].
  apply preserves_bind; [exact _ | apply log_only_pick | intro msg].
  apply log_only_addLog.
Qed.

(** ** The tick *)

Lemma perturb_percent v r s : percent (perturb v r s).
Proof.
  unfold percent, perturb, Math_max, Math_min. split.
  - apply Q.le_max_l.
  - apply Q.max_lub; [discriminate | apply Q.le_min_l].
Qed.

(** The deltas of the specification: at most 10 for [cpu], 5 for
    [memory]. *)
Lemma delta_range (r spread : Q) :
  (0 <= r)%Q -> (r < 1)%Q -> (0 <= spread)%Q ->
  (- (spread / 2) <= (r - (1 # 2)) * spread)%Q
  /\ ((r - (1 # 2)) * spread <= spread / 2)%Q.
Proof.
  intros H0 H1 Hs.
  assert (E : ((r - (1 # 2)) * spread == r * spread - spread / 2)%Q) by field.
  rewrite E.
  assert (L : (0 <= r * spread)%Q) by (apply Qmult_le_0_compat; assumption).
  assert (U : (r * spread <= 1 * spread)%Q).
  { apply Qmult_le_compat_r; [apply Qlt_le_weak|]; assumption. }
  rewrite Qmult_1_l in U. split; lra.
Qed.

Lemma update_agent_spec a w :
  exists a', update_agent a w = (Some a', skip_draws 2 w) /\ ticked (now w) a a'.
Proof.
  unfold update_agent, bind, Math_random, Date_now, ret.
  destruct (Status_eqb (Agent.status a) st_offline) eqn:E; cbn;
    eexists; (split; [reflexivity|]); constructor; cbn; rewrite ?E;
    auto using perturb_percent.
Qed.

Lemma mapM_update_agent l : forall w,
  exists l', mapM update_agent l w = (Some l', skip_draws (2 * length l) w)
             /\ Forall2 (ticked (now w)) l l'.
Proof.
  induction l as [|a l IH]; intro w.
  - exists []. split; [destruct w; reflexivity | constructor].
  - destruct (update_agent_spec a w) as (a' & Ea & Ta).
    destruct (IH (skip_draws 2 w)) as (l' & El & Tl).
    exists (a' :: l'). split.
    + cbn [mapM]. unfold bind at 1. rewrite Ea. unfold bind at 1. rewrite El.
      unfold ret, skip_draws; cbn. repeat f_equal. lia.
    + constructor; assumption.
Qed.

Lemma floor_scaled_lt (r : Q) (n : nat) :
  (0 <= r)%Q -> (r < 1)%Q -> (0 < n)%nat ->
  0 <= Math_floor (r * inject_Z (Z.of_nat n)) < Z.of_nat n.
Proof.
  intros H0 H1 Hn. unfold Math_floor.
  assert (Hp : (0 < inject_Z (Z.of_nat n))%Q).
  { change 0%Q with (inject_Z 0). rewrite <- Zlt_Qlt. lia. }
  split.
  - change 0 with (Qfloor (inject_Z 0)) at 1. apply Qfloor_resp_le.
    change (inject_Z 0) with 0%Q. apply Qmult_le_0_compat; [assumption|].
    apply Qlt_le_weak; assumption.
  - rewrite Zlt_Qlt. eapply Qle_lt_trans; [apply Qfloor_le|].
    rewrite <- (Qmult_1_l (inject_Z (Z.of_nat n))) at 2.
    apply Qmult_lt_r; assumption.
Qed.

Lemma random_index_defined {A} (l : list A) (r : Q) :
  (0 <= r)%Q -> (r < 1)%Q -> l <> [] ->
  let i := Math_floor (r * inject_Z (Z.of_nat (length l))) in
  exists a, (if i <? 0 then None else nth_error l (Z.to_nat i)) = Some a.
Proof.
  intros H0 H1 Hl i.
  assert (Hn : (0 < length l)%nat) by (destruct l; [congruence | cbn; lia]).
  destruct (floor_scaled_lt r (length l) H0 H1 Hn) as [Hlo Hhi].
  fold i in Hlo, Hhi.
  destruct (Z.ltb_spec i 0); [lia|].
  destruct (nth_error l (Z.to_nat i)) eqn:E; [eauto|].
  apply nth_error_None in E. lia.
Qed.

(** A computation that returns in every world. *)
Lemma fst_bind_some {A B} (m : M A) (f : A -> M B) (b : B) w :
  (exists a, fst (m w) = Some a) ->
  (forall a w', fst (f a w') = Some b) ->
  fst (bind m f w) = Some b.
Proof.
  intros (a & Ha) Hf. unfold bind. destruct (m w) as [[a'|] w1]; cbn in Ha.
  - apply Hf.
  - discriminate.
Qed.

Lemma pick_returns {A} (d : A) l w : exists a, fst (pick d l w) = Some a.
Proof. eexists. reflexivity. Qed.

Lemma tick_messages_returns w : exists a, fst (tick_messages w) = Some a.
Proof. eexists. reflexivity. Qed.

(** With draws in [0,1) and a roster that is not empty the log half of the
    tick does not throw. *)
Lemma tick_log_returns ags w :
  unit_draws w -> ags <> [] -> fst (tick_log ags w) = Some tt.
Proof.
  intros U Hne. destruct (U (random_pos w)) as [H0 H1].
  destruct (random_index_defined ags _ H0 H1 Hne) as (a & Ha).
  unfold tick_log. unfold bind at 1, Math_random at 1. cbv beta iota zeta.
  cbn [random_src random_pos]. rewrite Ha.
  apply fst_bind_some; [apply tick_messages_returns | intros ms w1].
  apply fst_bind_some; [eexists; reflexivity | intros r w2].
  destruct (gt r (3 # 10)); [|reflexivity].
  apply fst_bind_some; [eexists; reflexivity | intros nm w3].
  apply fst_bind_some; [apply pick_returns | intros ty w4].
  apply fst_bind_some; [apply pick_returns | intros msg w5].
  reflexivity.
Qed.

(** What a tick does to the roster. *)
Lemma tick_agents w :
  unit_draws w -> Forall2 (ticked (now w)) (agents w) (agents (run tick w)).
Proof.
  intro U. unfold run, tick, bind at 1, getAgents. unfold bind at 1.
  pose proof (log_only_tick_log (agents w) w) as F. unfold run in F.
  pose proof (tick_log_returns (agents w) w U) as D.
  destruct (tick_log (agents w) w) as [[[]|] w1]; cbn [fst snd] in *.
  - destruct (mapM_update_agent (agents w1) w1) as (l' & El & Tl).
    unfold setAgents, bind, getAgents. rewrite El. cbn.
    rewrite (lo_agents _ _ F), (lo_now _ _ F) in Tl. exact Tl.
  - rewrite (lo_agents _ _ F).
    destruct (agents w) as [|a l]; [constructor|].
    discriminate D. discriminate.
Qed.

(** ** The log *)

Lemma addLog_eq a t m w : addLog a t m w = (Some tt, logged a t m w).
Proof. reflexivity. Qed.

Lemma slice_last_length {A} n (l : list A) :
  length (slice_last n l) = Nat.min (length l) n.
Proof. unfold slice_last. rewrite length_skipn. lia. Qed.

Lemma slice_last_snoc {A} n (l : list A) x :
  slice_last (S n) (l ++ [x]) = (slice_last n l ++ [x])%list.
Proof.
  unfold slice_last. rewrite length_app. cbn [length].
  replace (length l + 1 - S n)%nat with (length l - n)%nat by lia.
  rewrite skipn_app.
  replace (length l - n - length l)%nat with 0%nat by lia. reflexivity.
Qed.

Lemma slice_last_slice_last {A} n m (l : list A) :
  (n <= m)%nat -> slice_last n (slice_last m l) = slice_last n l.
Proof.
  intro H. unfold slice_last. rewrite length_skipn, skipn_skipn.
  f_equal. lia.
Qed.

(** The oldest entries go first: what is kept is a suffix of the log. *)
Lemma slice_last_suffix {A} n (l : list A) :
  exists old, l = (old ++ slice_last n l)%list.
Proof.
  exists (firstn (length l - n) l). unfold slice_last.
  symmetry. apply firstn_skipn.
Qed.

Lemma addLog_length a t m w :
  length (logs (run (addLog a t m) w)) = S (Nat.min (length (logs w)) 100).
Proof.
  unfold run. rewrite addLog_eq. cbn [snd logs logged].
  rewrite length_app, slice_last_length. cbn [length]. lia.
Qed.

Lemma addLog_length_le_101 a t m w :
  (length (logs (run (addLog a t m) w)) <= 101)%nat.
Proof. rewrite addLog_length. lia. Qed.

(** ** Branches of the interpreter *)

Lemma not_keyword_eqb (s k : string) :
  ~ In s keywords -> In k keywords -> (s =? k)%string = false.
Proof.
  intros Hn Hk. destruct (String.eqb_spec s k); [subst; contradiction | reflexivity].
Qed.

Lemma handleCommand_unknown cmd :
  ~ In (trim (toLowerCase cmd)) keywords ->
  handleCommand cmd =
  (addLog "USER" ty_info ("$ " ++ cmd) ;;;
   addLog "SYSTEM" ty_error (unknown_message cmd)).
Proof.
  intro H. unfold handleCommand. cbv zeta.
  rewrite !(not_keyword_eqb _ _ H) by (cbn; tauto). reflexivity.
Qed.

Lemma handleCommand_clear cmd :
  trim (toLowerCase cmd) = "clear" ->
  handleCommand cmd = (addLog "USER" ty_info ("$ " ++ cmd) ;;; putLogs []).
Proof. intro H. unfold handleCommand. rewrite H. reflexivity. Qed.

Lemma handleCommand_deploy cmd :
  trim (toLowerCase cmd) = "deploy" ->
  handleCommand cmd =
  (addLog "USER" ty_info ("$ " ++ cmd) ;;;
   addLog "SYSTEM" ty_system "Initiating deployment sequence..." ;;;
   setTimeout (CbAddLog "SYSTEM" ty_success
                 "Deployment successful. All agents updated.") 2000).
Proof. intro H. unfold handleCommand. rewrite H. reflexivity. Qed.

Lemma handleCommand_scan cmd :
  trim (toLowerCase cmd) = "scan" ->
  handleCommand cmd =
  (addLog "USER" ty_info ("$ " ++ cmd) ;;;
   addLog "SYSTEM" ty_system "Scanning network for anomalies..." ;;;
   setTimeout (CbAddLog "SYSTEM" ty_success
                 "Scan complete. No threats detected.") 2500).
Proof. intro H. unfold handleCommand. rewrite H. reflexivity. Qed.

Lemma handleCommand_restart cmd :
  trim (toLowerCase cmd) = "restart" ->
  handleCommand cmd =
  (addLog "USER" ty_info ("$ " ++ cmd) ;;;
   addLog "SYSTEM" ty_warning "Restarting all agents..." ;;;
   setAgents (fun prev => ret (map (with_status st_idle) prev)) ;;;
   setTimeout CbRestartDone 3000).
Proof. intro H. unfold handleCommand. rewrite H. reflexivity. Qed.

Lemma handleCommand_status cmd :
  trim (toLowerCase cmd) = "status" \/ trim (toLowerCase cmd) = "ls" ->
  handleCommand cmd =
  (addLog "USER" ty_info ("$ " ++ cmd) ;;;
   ags <- getAgents ;;
   forEach (fun agent i => setTimeout (CbStatusLine agent) (i * 100)) ags).
Proof. intros [H|H]; unfold handleCommand; rewrite H; reflexivity. Qed.

Lemma forEach_status_timers ags : forall k w,
  forEach_from (fun agent i => setTimeout (CbStatusLine agent) (i * 100)) k ags w
  = (Some tt, queued (status_timers (next_timer w) (now w) k ags) w).
Proof.
  induction ags as [|a r IH]; intros k w.
  - cbn. unfold ret, queued. cbn. rewrite app_nil_r. destruct w; reflexivity.
  - cbn [forEach_from status_timers]. unfold bind, setTimeout at 1.
    rewrite IH. unfold queued. cbn. rewrite <- app_assoc. cbn.
    repeat f_equal. lia.
Qed.

Lemma status_timers_length ags : forall i t0 k,
  length (status_timers i t0 k ags) = length ags.
Proof. induction ags; intros; cbn; [reflexivity | f_equal; auto]. Qed.

Lemma status_timers_nth ags : forall i t0 k n a,
  nth_error ags n = Some a ->
  nth_error (status_timers i t0 k ags) n
  = Some (mkTimer (i + n) (t0 + (k + Z.of_nat n) * 100) (CbStatusLine a)).
Proof.
  induction ags as [|b r IH]; intros i t0 k n a H.
  - destruct n; discriminate.
  - destruct n as [|n]; cbn [nth_error status_timers] in H |- *.
    + inversion H; subst. repeat f_equal; lia.
    + rewrite (IH _ _ _ _ _ H).
      replace (S i + n)%nat with (i + S n)%nat by lia.
      replace (k + 1 + Z.of_nat n) with (k + Z.of_nat (S n)) by lia.
      reflexivity.
Qed.

Lemma toUpperCase_status s : toUpperCase (status_str s) = STATUS s.
Proof. destruct s; reflexivity. Qed.

Lemma Math_round_rounds q : rounds_to q (Math_round q).
Proof.
  unfold rounds_to, Math_round.
  pose proof (Qfloor_le (q + (1 # 2))) as Hlo.
  pose proof (Qlt_floor (q + (1 # 2))) as Hhi.
  rewrite inject_Z_plus in Hhi. change (inject_Z 1) with 1%Q in Hhi.
  split; lra.
Qed.

(** ** Rendering *)

Lemma tick_effect_agents w : agents (run tick_effect w) = agents w.
Proof. unfold run, tick_effect; cbn. destruct (bootComplete w); reflexivity. Qed.

Lemma tick_effect_logs w : logs (run tick_effect w) = logs w.
Proof. unfold run, tick_effect; cbn. destruct (bootComplete w); reflexivity. Qed.

Lemma commit_agents w0 w : agents (commit w0 w) = agents w.
Proof.
  unfold commit. destruct (deps_changed w0 w);
    [apply tick_effect_agents | reflexivity].
Qed.

Lemma commit_logs w0 w : logs (commit w0 w) = logs w.
Proof.
  unfold commit. destruct (deps_changed w0 w);
    [apply tick_effect_logs | reflexivity].
Qed.

(** A pending one-shot timer that the clock has not passed fires at its due
    time. *)
Lemma fire_timeout w t :
  next_pending w = Some (PTimeout t) -> now w <= due t ->
  let w1 := set_timers (remove_timer (timer_id t) (timers w))
                       (set_now (due t) w) in
  fire w = Some ((due t, RanCallback (callback t)),
                 commit w1 (run (run_callback (callback t)) w1)).
Proof.
  intros Hp Hd. unfold fire. rewrite Hp. rewrite Z.max_r by assumption.
  reflexivity.
Qed.

Lemma Forall_map_with_status s l :
  Forall (fun a => Agent.status a = s) (map (with_status s) l).
Proof. induction l; cbn; constructor; auto. Qed.

Lemma handleSubmit_cases cmd :
  handleSubmit cmd = ret tt \/ handleSubmit cmd = handleCommand cmd.
Proof. unfold handleSubmit. destruct (_ =? _)%string; auto. Qed.

(** ** What handlers do to the scheduling state *)

#[local] Instance sched_effect_preorder : PreOrder sched_effect.
Proof.
  split.
  - intro w. constructor; try reflexivity.
    exists []. rewrite app_nil_r. split; [reflexivity | constructor].
  - intros a b c [N1 R1 B1 I1 X1 (n1 & T1 & F1)] [N2 R2 B2 I2 X2 (n2 & T2 & F2)].
    constructor; try congruence; [lia|].
    exists (n1 ++ n2)%list. split.
    + rewrite T2, T1, app_assoc. reflexivity.
    + apply Forall_app. split; [assumption|].
      eapply Forall_impl; [|exact F2]. intros t (D & J & C).
      unfold fresh_timer. rewrite <- N1. repeat split; [assumption | lia | assumption].
Qed.

Lemma sched_effect_same w w' :
  now w' = now w -> random_src w' = random_src w ->
  bootComplete w' = bootComplete w -> interval w' = interval w ->
  next_timer w' = next_timer w -> timers w' = timers w ->
  sched_effect w w'.
Proof.
  intros. constructor; try assumption; [lia|].
  exists []. rewrite app_nil_r. split; [assumption | constructor].
Qed.

Lemma log_only_sched w w' : log_only w w' -> sched_effect w w'.
Proof. intros []. apply sched_effect_same; assumption. Qed.

Lemma preserves_weaken {A} (R R' : World -> World -> Prop) (m : M A) :
  (forall w w', R w w' -> R' w w') -> preserves R m -> preserves R' m.
Proof. intros H Hm w. apply H, Hm. Qed.

Lemma sched_Math_random : preserves sched_effect Math_random.
Proof. intro w. apply sched_effect_same; reflexivity. Qed.

Lemma sched_addLog a t m : preserves sched_effect (addLog a t m).
Proof. intro w. apply sched_effect_same; reflexivity. Qed.

Lemma sched_putLogs l : preserves sched_effect (putLogs l).
Proof. intro w. apply sched_effect_same; reflexivity. Qed.

Lemma sched_getAgents : preserves sched_effect getAgents.
Proof. intro w. apply sched_effect_same; reflexivity. Qed.

Lemma sched_putAgents l : preserves sched_effect (putAgents l).
Proof. intro w. apply sched_effect_same; reflexivity. Qed.

Lemma sched_setAgents f :
  (forall l, preserves sched_effect (f l)) -> preserves sched_effect (setAgents f).
Proof.
  intro Hf. unfold setAgents.
  apply preserves_bind; [exact _ | apply sched_getAgents | intro prev].
  apply preserves_bind; [exact _ | apply Hf | intro l]. apply sched_putAgents.
Qed.

Lemma sched_setTimeout cb d :
  0 <= d -> boot_callback cb = false -> preserves sched_effect (setTimeout cb d).
Proof.
  intros Hd Hcb w. constructor; try reflexivity; [cbn; lia|].
  eexists. split; [reflexivity|]. constructor; [|constructor].
  repeat split; cbn; [lia | lia | assumption].
Qed.

Lemma sched_update_agent a : preserves sched_effect (update_agent a).
Proof.
  intro w. destruct (update_agent_spec a w) as (a' & E & _).
  unfold run. rewrite E. apply sched_effect_same; reflexivity.
Qed.

Lemma sched_tick : preserves sched_effect tick.
Proof.
  unfold tick.
  apply preserves_bind; [exact _ | apply sched_getAgents | intro ags].
  apply preserves_bind; [exact _ | | intros _].
  - eapply preserves_weaken; [apply log_only_sched | apply log_only_tick_log].
  - apply sched_setAgents. intro l. apply preserves_mapM; [exact _|].
    apply sched_update_agent.
Qed.

Lemma sched_handleCommand cmd : preserves sched_effect (handleCommand cmd).
Proof.
  unfold handleCommand. cbv zeta.
  apply preserves_bind; [exact _ | apply sched_addLog | intros _].
  repeat match goal with
         | |- preserves _ (if ?c then _ else _) => destruct c
         end.
  - apply preserves_bind; [exact _ | apply sched_getAgents | intro ags].
    apply preserves_forEach; [exact _|]. intros a j Hj.
    apply sched_setTimeout; [lia | reflexivity].
  - apply preserves_bind; [exact _ | apply sched_addLog | intros _].
    apply sched_setTimeout; [lia | reflexivity].
  - apply preserves_bind; [exact _ | apply sched_addLog | intros _].
    apply preserves_bind; [exact _ | | intros _].
    + apply sched_setAgents. intro l. apply preserves_ret; exact _.
    + apply sched_setTimeout; [lia | reflexivity].
  - apply preserves_bind; [exact _ | apply sched_addLog | intros _].
    apply sched_setTimeout; [lia | reflexivity].
  - apply preserves_forEach; [exact _|]. intros a j Hj.
    apply sched_setTimeout; [lia | reflexivity].
  - apply sched_putLogs.
  - apply sched_addLog.
Qed.

Lemma sched_handleSubmit cmd : preserves sched_effect (handleSubmit cmd).
Proof.
  destruct (handleSubmit_cases cmd) as [E|E]; rewrite E;
    [apply preserves_ret; exact _ | apply sched_handleCommand].
Qed.

(** Every closure but the one that sets the boot flag. *)
Lemma sched_run_callback cb :
  cb <> CbBootComplete -> preserves sched_effect (run_callback cb).
Proof.
  intro H. destruct cb; cbn [run_callback]; try apply sched_addLog.
  - contradiction.
  - apply preserves_bind; [exact _ | | intros _; apply sched_addLog].
    apply sched_setAgents. intro l. apply preserves_ret; exact _.
Qed.

(** ** The timer queue *)

Lemma earlier_spec d1 i1 d2 i2 :
  earlier d1 i1 d2 i2 = true <-> d1 < d2 \/ (d1 = d2 /\ (i1 < i2)%nat).
Proof.
  unfold earlier.
  rewrite orb_true_iff, andb_true_iff, Z.ltb_lt, Z.eqb_eq, Nat.ltb_lt.
  reflexivity.
Qed.

Lemma earlier_false d1 i1 d2 i2 :
  earlier d1 i1 d2 i2 = false <-> d2 < d1 \/ (d1 = d2 /\ (i2 <= i1)%nat).
Proof.
  destruct (earlier d1 i1 d2 i2) eqn:E.
  - apply earlier_spec in E. split; [discriminate | lia].
  - split; [intros _ | reflexivity].
    assert (N : ~ (d1 < d2 \/ (d1 = d2 /\ (i1 < i2)%nat))).
    { intro C. apply earlier_spec in C. congruence. }
    lia.
Qed.

Lemma earliest_In l t : earliest l = Some t -> In t l.
Proof.
  revert t. induction l as [|x r IH]; intros t H; [discriminate|].
  cbn [earliest] in H. destruct (earliest r) as [m|].
  - destruct (earlier _ _ _ _); inversion H; subst;
      [right; apply IH; reflexivity | left; reflexivity].
  - inversion H. left; reflexivity.
Qed.

Lemma earliest_min l t :
  earliest l = Some t ->
  forall t', In t' l ->
             earlier (due t') (timer_id t') (due t) (timer_id t) = false.
Proof.
  revert t. induction l as [|x r IH]; intros t H t' Hin; [discriminate|].
  cbn [earliest] in H. destruct (earliest r) as [m|] eqn:Em.
  - specialize (IH m eq_refl).
    destruct (earlier (due m) (timer_id m) (due x) (timer_id x)) eqn:E;
      inversion H; subst; clear H; destruct Hin as [<-|Hin].
    + apply earlier_spec in E. apply earlier_false. lia.
    + apply IH; assumption.
    + apply earlier_false. lia.
    + specialize (IH t' Hin). apply earlier_false in IH, E.
      apply earlier_false. lia.
  - inversion H; subst. destruct Hin as [<-|Hin].
    + apply earlier_false. lia.
    + destruct r; [contradiction|]. cbn [earliest] in Em.
      destruct (earliest r); [destruct (earlier _ _ _ _)|]; discriminate.
Qed.

Lemma earliest_None l : earliest l = None -> l = [].
Proof.
  destruct l as [|x r]; [reflexivity|]. cbn [earliest].
  destruct (earliest r); [destruct (earlier _ _ _ _)|]; discriminate.
Qed.

Lemma next_pending_timeout w t :
  next_pending w = Some (PTimeout t) ->
  In t (timers w)
  /\ forall t', In t' (timers w) ->
                earlier (due t') (timer_id t') (due t) (timer_id t) = false.
Proof.
  unfold next_pending. intro H.
  destruct (earliest (timers w)) as [m|] eqn:E.
  - assert (m = t).
    { destruct (interval w) as [[i d]|];
        [destruct (earlier _ _ _ _)|]; congruence. }
    subst m. split; [apply earliest_In; assumption | apply earliest_min; assumption].
  - destruct (interval w) as [[i d]|]; discriminate.
Qed.

Lemma next_pending_interval w i d :
  next_pending w = Some (PInterval i d) ->
  interval w = Some (i, d) /\ Forall (fun t => d <= due t) (timers w).
Proof.
  unfold next_pending. intro H.
  destruct (earliest (timers w)) as [m|] eqn:E;
    destruct (interval w) as [[i' d']|]; try discriminate.
  - destruct (earlier d' i' (due m) (timer_id m)) eqn:Ee; inversion H; subst.
    split; [reflexivity|]. apply Forall_forall. intros t Ht.
    pose proof (earliest_min _ _ E t Ht) as Hm.
    apply earlier_spec in Ee. apply earlier_false in Hm. lia.
  - inversion H; subst. split; [reflexivity|].
    rewrite (earliest_None _ E). constructor.
Qed.

Lemma next_pending_le w p :
  next_pending w = Some p -> Forall (fun t => pending_due p <= due t) (timers w).
Proof.
  destruct p as [t|i d]; intro H.
  - destruct (next_pending_timeout _ _ H) as [_ Hm].
    apply Forall_forall. intros t' Ht'. specialize (Hm t' Ht').
    apply earlier_false in Hm. cbn [pending_due]. lia.
  - apply (next_pending_interval _ _ _ H).
Qed.

Lemma next_pending_None w : next_pending w = None -> timers w = [].
Proof.
  unfold next_pending. intro H. apply earliest_None.
  destruct (earliest (timers w)); [|reflexivity].
  destruct (interval w) as [[i d]|]; [destruct (earlier _ _ _ _)|]; discriminate.
Qed.

Lemma filter_remove_timer (p : Timer -> bool) i l :
  filter p (remove_timer i l) = remove_timer i (filter p l).
Proof.
  unfold remove_timer. induction l as [|x r IH]; [reflexivity|].
  cbn [filter]. destruct (negb (timer_id x =? i)%nat) eqn:E1, (p x) eqn:E2;
    cbn [filter]; rewrite ?E1, ?E2, IH; reflexivity.
Qed.

Lemma In_remove_timer i l t : In t (remove_timer i l) -> In t l.
Proof. unfold remove_timer. intro H. apply filter_In in H. tauto. Qed.

(** ** The session invariant *)

Lemma filter_boot_fresh w new :
  Forall (fresh_timer w) new ->
  filter (fun t => boot_callback (callback t)) new = [].
Proof.
  induction 1 as [|t l (_ & _ & Hc) _ IH]; [reflexivity|].
  cbn [filter]. rewrite Hc. exact IH.
Qed.

Lemma session_sched start hist w w' :
  session start hist w -> sched_effect w w' -> session start hist w'.
Proof.
  intros [Ht Hn Hi Hp Hf Hb Hd Hv Hk] [N R B I X (new & T & F)].
  constructor; try assumption.
  - rewrite T, N. apply Forall_app. split; [assumption|].
    eapply Forall_impl; [|exact F]. intros t (D & _). exact D.
  - lia.
  - rewrite T. apply Forall_app. split; [assumption|].
    eapply Forall_impl; [|exact F]. intros t (_ & J & _) _. lia.
  - rewrite T, filter_app, (filter_boot_fresh w new F), app_nil_r. exact Hp.
  - rewrite B. exact Hb.
  - rewrite B, N. exact Hd.
  - rewrite B, I. exact Hv.
Qed.

Lemma session_tick_effect start hist w :
  session start hist w -> session start hist (run tick_effect w).
Proof.
  intros [Ht Hn Hi Hp Hf Hb Hd Hv Hk].
  unfold run, tick_effect. cbn [snd].
  destruct (bootComplete w) eqn:E; constructor; cbn; try assumption.
  - lia.
  - intros i d H. inversion H; subst. split; [reflexivity|].
    destruct (Hd eq_refl). lia.
  - discriminate.
Qed.

Lemma session_commit start hist w0 w :
  session start hist w -> session start hist (commit w0 w).
Proof.
  intro S. unfold commit. destruct (deps_changed w0 w);
    [apply session_tick_effect|]; assumption.
Qed.

Lemma session_set_now start hist w t :
  session start hist w -> now w <= t ->
  Forall (fun x => t <= due x) (timers w) ->
  session start hist (set_now t w).
Proof.
  intros [Ht Hn Hi Hp Hf Hb Hd Hv Hk] Hle Hdue.
  constructor; cbn; try assumption.
  intro E. destruct (Hd E). split; [assumption | lia].
Qed.

Lemma session_rearm start hist w i d :
  session start hist w -> interval w = Some (i, d) ->
  session start hist (set_interval (Some (i, d + 1500)) w).
Proof.
  intros [Ht Hn Hi Hp Hf Hb Hd Hv Hk] E.
  constructor; cbn; try assumption.
  intros i' d' H. inversion H; subst. destruct (Hv _ _ E). split; [assumption | lia].
Qed.

Lemma snoc_split {A} (h : list A) f pre x post :
  (h ++ [f] = pre ++ x :: post)%list ->
  (post = [] /\ pre = h /\ x = f)
  \/ exists post', post = (post' ++ [f])%list /\ h = (pre ++ x :: post')%list.
Proof.
  intro H. destruct post as [|y post] using rev_ind.
  - apply app_inj_tail in H. destruct H; subst. left; auto.
  - clear IHpost. right. exists post.
    change (pre ++ x :: post ++ [y])%list with (pre ++ (x :: post) ++ [y])%list in H.
    rewrite app_assoc in H. apply app_inj_tail in H. destruct H; subst. auto.
Qed.

Lemma boots_snoc hist f :
  boots (hist ++ [f]) = ((if is_boot f then 1 else 0) + boots hist)%nat.
Proof.
  unfold boots. rewrite filter_app, length_app. cbn [filter].
  destruct (is_boot f); cbn [length]; lia.
Qed.

(** A turn that is not of the boot sequence is added to the history. *)
Lemma session_history start hist w f :
  session start hist w -> is_boot f = false ->
  (is_tick f = true -> bootComplete w = true /\ start + 4000 <= fst f) ->
  session start (hist ++ [f]) w.
Proof.
  intros [Ht Hn Hi Hp Hf Hb Hd Hv Hk] Hnb Htk.
  assert (Eb : boots (hist ++ [f]) = boots hist).
  { rewrite boots_snoc, Hnb. reflexivity. }
  constructor; try assumption; rewrite ?Eb; try assumption.
  - rewrite filter_app. cbn [filter]. rewrite Hnb, app_nil_r. exact Hf.
  - intro E. destruct (Hd E). split; [apply in_or_app; left|]; assumption.
  - intros pre t post H. destruct (snoc_split _ _ _ _ _ H) as [(-> & -> & <-)|(post' & -> & ->)].
    + destruct (Htk eq_refl) as [E T]. destruct (Hd E). auto.
    + eapply Hk. reflexivity.
Qed.

Lemma filter_all {A} (p : A -> bool) l :
  Forall (fun x => p x = true) l -> filter p l = l.
Proof.
  induction 1 as [|x r Hx _ IH]; [reflexivity|].
  cbn [filter]. rewrite Hx, IH. reflexivity.
Qed.

Lemma In_skipn_In {A} k (l : list A) x : In x (skipn k l) -> In x l.
Proof.
  intro H. rewrite <- (firstn_skipn k l). apply in_or_app. right; exact H.
Qed.

Lemma boot_timers_ids start k t :
  In t (skipn k (boot_timers start)) -> (timer_id t < 6)%nat.
Proof.
  intro H. apply In_skipn_In in H.
  cbn in H. repeat (destruct H as [<-|H]; [cbn; lia|]). contradiction.
Qed.

(** A timer queued by a handler leaves the queue. *)
Lemma session_remove_user start hist w t :
  session start hist w -> In t (timers w) ->
  boot_callback (callback t) = false ->
  session start hist (set_timers (remove_timer (timer_id t) (timers w)) w).
Proof.
  intros [Ht Hn Hi Hp Hf Hb Hd Hv Hk] Hin Hc.
  assert (Hid : (6 <= timer_id t)%nat).
  { rewrite Forall_forall in Hi. apply Hi; assumption. }
  constructor; cbn; try assumption.
  - rewrite Forall_forall in *. intros x Hx. apply Ht.
    eapply In_remove_timer; eassumption.
  - rewrite Forall_forall in *. intros x Hx. apply Hi.
    eapply In_remove_timer; eassumption.
  - rewrite filter_remove_timer, Hp. apply filter_all.
    apply Forall_forall. intros x Hx. apply boot_timers_ids in Hx.
    apply negb_true_iff, Nat.eqb_neq. lia.
Qed.

(** The boot timer that fires is the first one still pending. *)
Lemma boot_head start hist w t :
  session start hist w -> In t (timers w) ->
  (forall t', In t' (timers w) ->
              earlier (due t') (timer_id t') (due t) (timer_id t) = false) ->
  boot_callback (callback t) = true ->
  nth_error (boot_timers start) (boots hist) = Some t.
Proof.
  intros [_ _ _ Hp _ _ _ _ _] Hin Hmin Hc.
  assert (Hin' : In t (skipn (boots hist) (boot_timers start))).
  { rewrite <- Hp. apply filter_In. auto. }
  assert (Hall : forall h, In h (skipn (boots hist) (boot_timers start)) ->
                           earlier (due h) (timer_id h) (due t) (timer_id t) = false).
  { intros h Hh. apply Hmin. rewrite <- Hp in Hh. apply filter_In in Hh. tauto. }
  clear Hp Hin Hmin Hc.
  destruct (boots hist) as [|[|[|[|[|[|k]]]]]]; cbn [skipn boot_timers] in *;
    try (rewrite skipn_nil in Hin'; contradiction);
    pose proof (Hall _ (or_introl eq_refl)) as H0; apply earlier_false in H0;
    (destruct Hin' as [<-|Hin']; [reflexivity|]); exfalso;
    repeat (destruct Hin' as [<-|Hin']; [cbn in H0; lia|]); contradiction.
Qed.

Lemma boot_removed start k t :
  nth_error (boot_timers start) k = Some t ->
  remove_timer (timer_id t) (skipn k (boot_timers start))
  = skipn (S k) (boot_timers start).
Proof.
  destruct k as [|[|[|[|[|[|k]]]]]]; cbn [nth_error boot_timers]; intro H;
    try (inversion H; subst; reflexivity).
  destruct k; discriminate.
Qed.

Lemma boot_fired_next start k t :
  nth_error (boot_timers start) k = Some t ->
  firstn (S k) (boot_trace start)
  = (firstn k (boot_trace start) ++ [fired_of t])%list.
Proof.
  destruct k as [|[|[|[|[|[|k]]]]]]; cbn [nth_error boot_timers]; intro H;
    try (inversion H; subst; reflexivity).
  destruct k; discriminate.
Qed.

Lemma boot_kind start k t :
  nth_error (boot_timers start) k = Some t ->
  ((k < 5)%nat /\ exists m, callback t = CbAddLog "SYSTEM" ty_system m)
  \/ (k = 5%nat /\ t = mkTimer 5 (start + 2500) CbBootComplete).
Proof.
  destruct k as [|[|[|[|[|[|k]]]]]]; cbn [nth_error boot_timers]; intro H;
    try (inversion H; subst; cbn [callback]; left; split; [lia | eauto]; fail).
  - inversion H; subst. right. split; reflexivity.
  - destruct k; discriminate.
Qed.

(** The state once a timer of the boot sequence has left the queue. *)
Lemma session_boot_step start hist w t w' :
  session start hist w ->
  nth_error (boot_timers start) (boots hist) = Some t ->
  Forall (fun x => due t <= due x) (timers w) ->
  now w' = due t ->
  timers w' = remove_timer (timer_id t) (timers w) ->
  next_timer w' = next_timer w ->
  interval w' = interval w ->
  bootComplete w' = (6 <=? S (boots hist))%nat ->
  (bootComplete w' = true -> In (boot_done start) (hist ++ [fired_of t])) ->
  session start (hist ++ [fired_of t]) w'.
Proof.
  intros [Ht Hn Hi Hp Hf Hb Hd Hv Hk] Hnth Hmin EN ET EX EI EB ED.
  assert (Hboot : is_boot (fired_of t) = true).
  { destruct (boot_kind _ _ _ Hnth) as [(_ & m & Hm)|(_ & ->)];
      unfold is_boot, fired_of; cbn [snd]; [rewrite Hm|]; reflexivity. }
  assert (Eb : boots (hist ++ [fired_of t]) = S (boots hist)).
  { rewrite boots_snoc, Hboot. reflexivity. }
  constructor; rewrite ?Eb.
  - rewrite ET, EN. rewrite Forall_forall in *. intros x Hx.
    apply Hmin. eapply In_remove_timer; eassumption.
  - lia.
  - rewrite ET. rewrite Forall_forall in *. intros x Hx.
    apply Hi. eapply In_remove_timer; eassumption.
  - rewrite ET, filter_remove_timer, Hp. apply boot_removed; assumption.
  - rewrite filter_app. cbn [filter]. rewrite Hboot, Hf.
    symmetry. apply boot_fired_next; assumption.
  - exact EB.
  - intro E. split; [apply ED; exact E|].
    rewrite EN. destruct (boot_kind _ _ _ Hnth) as [(Hlt & _)|(_ & ->)].
    + rewrite EB in E. apply Nat.leb_le in E. lia.
    + cbn. lia.
  - intros i d E. rewrite EI in E. destruct (Hv _ _ E) as [E1 E2].
    split; [|assumption]. rewrite EB. rewrite Hb in E1.
    apply Nat.leb_le in E1. apply Nat.leb_le. lia.
  - intros pre x post H.
    destruct (snoc_split _ _ _ _ _ H) as [(_ & _ & C)|(post' & _ & ->)].
    + destruct (boot_kind _ _ _ Hnth) as [(_ & m & Hm)|(_ & ->)];
        unfold fired_of in C; [rewrite Hm in C|]; discriminate.
    + eapply Hk. reflexivity.
Qed.

Lemma mount_state start rnd :
  now (mount start rnd) = start
  /\ random_src (mount start rnd) = rnd
  /\ logs (mount start rnd) = []
  /\ bootComplete (mount start rnd) = false
  /\ timers (mount start rnd) = boot_timers start
  /\ next_timer (mount start rnd) = 6%nat
  /\ interval (mount start rnd) = None
  /\ length (agents (mount start rnd)) = 6%nat.
Proof. repeat split; reflexivity. Qed.

Lemma session_mount start rnd : session start [] (mount start rnd).
Proof.
  destruct (mount_state start rnd) as (EN & _ & _ & EB & ET & EX & EI & _).
  constructor; rewrite ?ET, ?EN, ?EX, ?EB, ?EI; cbn [boots filter length skipn firstn].
  - unfold boot_timers. repeat constructor; cbn [due]; lia.
  - lia.
  - unfold boot_timers. repeat constructor; cbn [callback boot_callback]; discriminate.
  - reflexivity.
  - reflexivity.
  - reflexivity.
  - discriminate.
  - discriminate.
  - intros pre t post H. destruct pre; discriminate.
Qed.

Lemma session_fire start hist w f w' :
  session start hist w -> fire w = Some (f, w') ->
  session start (hist ++ [f]) w'.
Proof.
  intros S H. unfold fire in H.
  destruct (next_pending w) as [[t|i d]|] eqn:Ep; [| |discriminate].
  - destruct (next_pending_timeout _ _ Ep) as [Hin Hmin].
    assert (Hnow : now w <= due t).
    { pose proof (inv_timely _ _ _ S) as Ht. rewrite Forall_forall in Ht. auto. }
    assert (Hall : Forall (fun x => due t <= due x) (timers w)).
    { apply Forall_forall. intros x Hx. specialize (Hmin x Hx).
      apply earlier_false in Hmin. lia. }
    rewrite Z.max_r in H by assumption. inversion H; subst f w'; clear H.
    cbn [now set_now set_timers].
    change (due t, RanCallback (callback t)) with (fired_of t).
    apply session_commit.
    destruct (boot_callback (callback t)) eqn:Ec.
    + pose proof (boot_head _ _ _ _ S Hin Hmin Ec) as Hnth.
      destruct (boot_kind _ _ _ Hnth) as [(Hlt & m & Hm)|(Hk & ->)].
      * eapply session_sched;
          [|apply sched_run_callback; rewrite Hm; discriminate].
        apply (session_boot_step _ _ w); try assumption; try reflexivity.
        -- cbn [bootComplete set_timers set_now]. rewrite (inv_flag _ _ _ S).
           transitivity false; [|symmetry]; apply Nat.leb_gt; lia.
        -- cbn [bootComplete set_timers set_now]. rewrite (inv_flag _ _ _ S).
           intro E. apply Nat.leb_le in E. lia.
      * apply (session_boot_step _ _ w); try assumption; try reflexivity.
        -- rewrite Hk. reflexivity.
        -- intros _. apply in_or_app. right. left. reflexivity.
    + eapply session_sched;
        [|apply sched_run_callback; intro C; rewrite C in Ec; discriminate].
      apply session_history.
      * apply (session_remove_user _ _ (set_now (due t) w));
          [apply session_set_now | |]; assumption.
      * unfold is_boot, fired_of. cbn [snd]. exact Ec.
      * discriminate.
  - destruct (next_pending_interval _ _ _ Ep) as [Ei Hall].
    destruct (inv_interval _ _ _ S _ _ Ei) as [Eb Hd].
    inversion H; subst f w'; clear H. cbn [now set_now set_interval].
    apply session_commit. eapply session_sched; [|apply sched_tick].
    apply session_history.
    + apply (session_rearm _ _ (set_now (Z.max (now w) d) w)); [|exact Ei].
      apply session_set_now; [assumption | lia |].
      pose proof (inv_timely _ _ _ S) as Ht. rewrite Forall_forall in *.
      intros x Hx. specialize (Ht x Hx). specialize (Hall x Hx). lia.
    + reflexivity.
    + intros _. cbn [fst bootComplete set_interval set_now]. split; [assumption | lia].
Qed.

Lemma session_submit start hist w t cmd :
  session start hist w -> can_submit t w = true ->
  session start hist
    (commit (set_now t w) (run (handleSubmit cmd) (set_now t w))).
Proof.
  intros S H. unfold can_submit in H. apply andb_true_iff in H.
  destruct H as [Hnow Hp]. apply Z.leb_le in Hnow.
  apply session_commit. eapply session_sched; [|apply sched_handleSubmit].
  apply session_set_now; [assumption | assumption |].
  destruct (next_pending w) as [p|] eqn:Ep.
  - apply Z.leb_le in Hp. pose proof (next_pending_le _ _ Ep) as Hle.
    eapply Forall_impl; [|exact Hle]. cbn. intros; lia.
  - rewrite (next_pending_None _ Ep). constructor.
Qed.

Lemma session_step start hist w i fs w' :
  session start hist w -> step i w = Some (fs, w') ->
  session start (hist ++ fs) w'.
Proof.
  intros S H. destruct i as [|t cmd]; cbn [step] in H.
  - destruct (fire w) as [[f w1]|] eqn:Ef; [|discriminate].
    inversion H; subst. eapply session_fire; eassumption.
  - destruct (can_submit t w) eqn:Ec; [|discriminate].
    inversion H; subst. rewrite app_nil_r. apply session_submit; assumption.
Qed.

Lemma session_exec start ins : forall hist w fs w',
  session start hist w -> exec ins w = Some (fs, w') ->
  session start (hist ++ fs) w'.
Proof.
  induction ins as [|i r IH]; intros hist w fs w' S H; cbn [exec] in H.
  - inversion H; subst. rewrite app_nil_r. assumption.
  - destruct (step i w) as [[f1 w1]|] eqn:Es; [|discriminate].
    destruct (exec r w1) as [[f2 w2]|] eqn:Er; [|discriminate].
    inversion H; subst. rewrite app_assoc.
    eapply IH; [|eassumption]. eapply session_step; eassumption.
Qed.

(** ** The boot sequence, undisturbed *)

Lemma earliest_head h r :
  Forall (fun x => due h < due x) r -> earliest (h :: r) = Some h.
Proof.
  intro H. cbn [earliest]. destruct (earliest r) as [m|] eqn:E; [|reflexivity].
  apply earliest_In in E. rewrite Forall_forall in H. specialize (H m E).
  replace (earlier (due m) (timer_id m) (due h) (timer_id h)) with false;
    [reflexivity|]. symmetry. apply earlier_false. lia.
Qed.

Lemma next_pending_head w h r :
  timers w = h :: r -> interval w = None ->
  Forall (fun x => due h < due x) r ->
  next_pending w = Some (PTimeout h).
Proof.
  intros Et Ei H. unfold next_pending. rewrite Et, Ei, (earliest_head h r H).
  reflexivity.
Qed.

(** Fires the head of a queue whose dues are in increasing order, then
    renders. *)
Ltac fire_head :=
  match goal with
  | |- context [fire ?w] =>
      let t := eval cbn in (hd (mkTimer 0 0 CbBootComplete) (timers w)) in
      rewrite (fire_timeout w t);
      [ unfold commit, deps_changed; cbn; rewrite ?Nat.eqb_refl; cbn
      | eapply next_pending_head;
          [reflexivity | reflexivity | repeat constructor; cbn; lia]
      | cbn; lia ]
  end.

Lemma boot_run start rnd p ags g :
  exists w5 w6 w7,
    exec (repeat Fire 5) (booting start rnd p ags g)
    = Some (firstn 5 (boot_trace start), w5)
    /\ map shown (logs w5) = boot_log start
    /\ bootComplete w5 = false
    /\ interval w5 = None
    /\ fire w5 = Some (boot_done start, w6)
    /\ bootComplete w6 = true
    /\ logs w6 = logs w5
    /\ interval w6 = Some (6%nat, start + 4000)
    /\ fire w6 = Some ((start + 4000, RanTick), w7).
Proof.
  unfold booting. cbn [repeat exec step].
  do 5 fire_head.
  eexists. eexists. eexists.
  split; [reflexivity|]. split; [reflexivity|].
  split; [reflexivity|]. split; [reflexivity|].
  split; [fire_head; reflexivity|].
  split; [reflexivity|]. split; [reflexivity|].
  replace (start + 4000) with (start + 2500 + 1500) by lia.
  split; [reflexivity|].
  unfold fire. cbn [next_pending timers interval earliest].
  rewrite Z.max_r by (cbn; lia). reflexivity.
Qed.

Lemma boot_done_fired start k :
  In (boot_done start) (firstn k (boot_trace start)) -> (6 <= k)%nat.
Proof.
  destruct k as [|[|[|[|[|[|k]]]]]]; cbn; intro H; try lia;
    repeat (destruct H as [H|H]; [discriminate H|]); contradiction.
Qed.

(** ** Uptime *)

Lemma uptime_grown_refl l : uptime_grown 0 l l.
Proof. induction l; constructor; [lia | assumption]. Qed.

Lemma uptime_grown_trans n m l1 l2 l3 :
  uptime_grown n l1 l2 -> uptime_grown m l2 l3 -> uptime_grown (n + m) l1 l3.
Proof.
  intro H. revert l3. induction H as [|a b l1 l2 Hab _ IH]; intros l3 H3;
    inversion H3; subst; constructor; [lia | apply IH; assumption].
Qed.

#[local] Instance same_uptime_preorder : PreOrder same_uptime.
Proof.
  split.
  - intro w. unfold same_uptime. generalize (agents w). intro l.
    induction l; constructor; auto.
  - intros a b c. unfold same_uptime. generalize (agents a) (agents b) (agents c).
    intros l1 l2 l3 H. revert l3. induction H; intros l3 H3; inversion H3; subst;
      constructor; [congruence | auto].
Qed.

Lemma same_uptime_eq w w' : agents w' = agents w -> same_uptime w w'.
Proof.
  intro E. unfold same_uptime. rewrite E.
  generalize (agents w). intro l. induction l; constructor; auto.
Qed.

Lemma uptime_addLog a t m : preserves same_uptime (addLog a t m).
Proof. intro w. apply same_uptime_eq. reflexivity. Qed.

Lemma uptime_setTimeout cb d : preserves same_uptime (setTimeout cb d).
Proof. intro w. apply same_uptime_eq. reflexivity. Qed.

Lemma uptime_set_status s :
  preserves same_uptime (setAgents (fun prev => ret (map (with_status s) prev))).
Proof.
  intro w. unfold same_uptime, run, setAgents, bind, getAgents, ret, putAgents.
  cbn [snd agents]. generalize (agents w). intro l.
  induction l; constructor; auto.
Qed.

Lemma uptime_handleCommand cmd : preserves same_uptime (handleCommand cmd).
Proof.
  unfold handleCommand. cbv zeta.
  apply preserves_bind; [exact _ | apply uptime_addLog | intros _].
  repeat match goal with
         | |- preserves _ (if ?c then _ else _) => destruct c
         end.
  - apply preserves_bind; [exact _ | | intro ags].
    { intro w. apply same_uptime_eq. reflexivity. }
    apply preserves_forEach; [exact _|]. intros a j Hj. apply uptime_setTimeout.
  - apply preserves_bind; [exact _ | apply uptime_addLog | intros _].
    apply uptime_setTimeout.
  - apply preserves_bind; [exact _ | apply uptime_addLog | intros _].
    apply preserves_bind; [exact _ | apply uptime_set_status | intros _].
    apply uptime_setTimeout.
  - apply preserves_bind; [exact _ | apply uptime_addLog | intros _].
    apply uptime_setTimeout.
  - apply preserves_forEach; [exact _|]. intros a j Hj. apply uptime_setTimeout.
  - intro w. apply same_uptime_eq. reflexivity.
  - apply uptime_addLog.
Qed.

Lemma uptime_handleSubmit cmd : preserves same_uptime (handleSubmit cmd).
Proof.
  destruct (handleSubmit_cases cmd) as [E|E]; rewrite E;
    [apply preserves_ret; exact _ | apply uptime_handleCommand].
Qed.

Lemma uptime_run_callback cb : preserves same_uptime (run_callback cb).
Proof.
  destruct cb; cbn [run_callback]; try apply uptime_addLog.
  - intro w. apply same_uptime_eq. reflexivity.
  - apply preserves_bind; [exact _ | apply uptime_set_status | intros _].
    apply uptime_addLog.
Qed.

Lemma tick_uptime_grown w :
  unit_draws w -> uptime_grown 1 (agents w) (agents (run tick w)).
Proof.
  intro U. pose proof (tick_agents w U) as T. unfold uptime_grown.
  induction T as [|a a' l l' Ha _ IH]; constructor; [|exact IH].
  apply (ticked_uptime _ _ _ Ha).
Qed.

Lemma commit_random w0 w : random_src (commit w0 w) = random_src w.
Proof.
  unfold commit. destruct (deps_changed w0 w); [|reflexivity].
  unfold run, tick_effect. cbn. destruct (bootComplete w); reflexivity.
Qed.


(** The same run, from the first render. *)
Lemma boot_run_mount start rnd :
  exists w5 w6 w7,
    exec (repeat Fire 5) (mount start rnd)
    = Some (firstn 5 (boot_trace start), w5)
    /\ map shown (logs w5) = boot_log start
    /\ bootComplete w5 = false
    /\ interval w5 = None
    /\ fire w5 = Some (boot_done start, w6)
    /\ bootComplete w6 = true
    /\ logs w6 = logs w5
    /\ interval w6 = Some (6%nat, start + 4000)
    /\ fire w6 = Some ((start + 4000, RanTick), w7).
Proof.
  destruct (mount_state start rnd) as (EN & _ & EL & EB & ET & EX & EI & _).
  revert EN EL EB ET EX EI. generalize (mount start rnd).
  intros [n r p ags g l b ts x iv]. cbn. intros; subst.
  apply (boot_run start r p ags g).
Qed.

Lemma random_run_callback cb w :
  random_src (run (run_callback cb) w) = random_src w.
Proof. destruct cb; reflexivity. Qed.

Lemma same_uptime_grown w w' :
  same_uptime w w' -> uptime_grown 0 (agents w) (agents w').
Proof.
  unfold same_uptime, uptime_grown. generalize (agents w) (agents w').
  induction 1; constructor; [lia | assumption].
Qed.

(** One step of the session: uptime grows by one when the step is a tick
    and stays otherwise. *)
Lemma uptime_step i w fs w' :
  unit_draws w -> step i w = Some (fs, w') ->
  random_src w' = random_src w
  /\ uptime_grown (Z.of_nat (count_ticks fs)) (agents w) (agents w').
Proof.
  intros U H. destruct i as [|t cmd]; cbn [step] in H.
  - unfold fire in H. destruct (next_pending w) as [[t|i d]|]; [| |discriminate];
      inversion H; subst fs w'; clear H;
      rewrite commit_random, commit_agents.
    + split; [rewrite random_run_callback; reflexivity|].
      match goal with
      | |- uptime_grown _ _ (agents (run _ ?w1)) =>
          exact (same_uptime_grown w1 _ (uptime_run_callback _ w1))
      end.
    + split; [rewrite (se_random _ _ (sched_tick _)); reflexivity|].
      exact (tick_uptime_grown
               (set_interval (Some (i, d + 1500)) (set_now (Z.max (now w) d) w))
               U).
  - destruct (can_submit t w); [|discriminate]. inversion H; subst fs w'.
    rewrite commit_random, commit_agents. split.
    + rewrite (se_random _ _ (sched_handleSubmit cmd _)). reflexivity.
    + exact (same_uptime_grown _ _ (uptime_handleSubmit cmd (set_now t w))).
Qed.

Lemma count_ticks_app f1 f2 :
  count_ticks (f1 ++ f2) = (count_ticks f1 + count_ticks f2)%nat.
Proof. unfold count_ticks. rewrite filter_app, length_app. reflexivity. Qed.

Lemma uptime_exec ins : forall w fs w',
  unit_draws w -> exec ins w = Some (fs, w') ->
  uptime_grown (Z.of_nat (count_ticks fs)) (agents w) (agents w').
Proof.
  induction ins as [|i r IH]; intros w fs w' U H; cbn [exec] in H.
  - inversion H; subst. apply uptime_grown_refl.
  - destruct (step i w) as [[f1 w1]|] eqn:Es; [|discriminate].
    destruct (exec r w1) as [[f2 w2]|] eqn:Er; [|discriminate].
    inversion H; subst fs w'; clear H.
    destruct (uptime_step _ _ _ _ U Es) as [ER G1].
    assert (U1 : unit_draws w1) by (unfold unit_draws; rewrite ER; exact U).
    rewrite count_ticks_app, Nat2Z.inj_add.
    eapply uptime_grown_trans; [exact G1 | apply IH; assumption].
Qed.

(** In a session the clock never passes a pending timer. *)
Lemma session_timely start hist w t :
  session start hist w -> next_pending w = Some (PTimeout t) -> now w <= due t.
Proof.
  intros S Hp. destruct (next_pending_timeout _ _ Hp) as [Hin _].
  pose proof (inv_timely _ _ _ S) as Ht. rewrite Forall_forall in Ht. auto.
Qed.

(** ** The command line *)

Lemma handleKeyDown_history k p : history (handleKeyDown k p) = history p.
Proof.
  destruct k; unfold handleKeyDown; cbv zeta; try reflexivity.
  destruct (0 <? Z.of_nat (length (history p))); reflexivity.
Qed.

Lemma prompt_step_ok e p : prompt_ok p -> prompt_ok (prompt_step e p).
Proof.
  intros [Hi Hh]. destruct e as [s|k|]; cbn [prompt_step].
  - split; assumption.
  - split; [|rewrite handleKeyDown_history; exact Hh].
    rewrite handleKeyDown_history.
    destruct k; unfold handleKeyDown; cbv zeta; [| |exact Hi].
    + destruct (Z.ltb_spec 0 (Z.of_nat (length (history p)))); [|exact Hi].
      cbn [historyIndex].
      destruct (Z.ltb_spec (historyIndex p) (Z.of_nat (length (history p)) - 1)); lia.
    + cbn [historyIndex]. destruct (Z.ltb_spec 0 (historyIndex p)); lia.
  - unfold submitPrompt. destruct (String.eqb_spec (trim (command p)) "") as [E|E].
    + split; assumption.
    + unfold prompt_ok. cbn [historyIndex history]. split.
      * rewrite length_app. cbn [length]. lia.
      * apply Forall_app. split; [exact Hh|]. constructor; [exact E | constructor].
Qed.

Lemma prompt_run_ok es : forall p, prompt_ok p -> prompt_ok (prompt_run es p).
Proof.
  induction es as [|e r IH]; intros p H; [exact H|].
  cbn [prompt_run fold_left]. apply IH, prompt_step_ok, H.
Qed.

Lemma prompt_run_history es : forall p,
  history (prompt_run es p) = (history p ++ submitted es p)%list.
Proof.
  induction es as [|e r IH]; intro p; cbn [prompt_run fold_left submitted].
  - rewrite app_nil_r. reflexivity.
  - fold (prompt_run r (prompt_step e p)). rewrite IH.
    destruct e as [s|k|]; cbn [prompt_step].
    + reflexivity.
    + rewrite handleKeyDown_history. reflexivity.
    + unfold submitPrompt. destruct (trim (command p) =? "")%string.
      * reflexivity.
      * cbn [history]. rewrite <- app_assoc. reflexivity.
Qed.

Lemma submitted_nonblank es : forall p,
  Forall (fun l => trim l <> "") (submitted es p).
Proof.
  induction es as [|e r IH]; intro p; cbn [submitted]; [constructor|].
  destruct e as [s|k|]; try apply IH.
  destruct (String.eqb_spec (trim (command p)) ""); [apply IH|].
  constructor; [assumption | apply IH].
Qed.

(** [k] presses of ArrowUp. *)
Lemma arrow_up_run k : forall p,
  history p <> [] ->
  -1 <= historyIndex p <= Z.of_nat (length (history p)) - 1 ->
  let q := prompt_run (repeat (PKey ArrowUp) k) p in
  let len := Z.of_nat (length (history p)) in
  history q = history p
  /\ historyIndex q = Z.min (historyIndex p + Z.of_nat k) (len - 1)
  /\ ((0 < k)%nat ->
      command q = entry_or_empty (history p) (len - 1 - historyIndex q)).
Proof.
  induction k as [|k IH]; intros p Hne Hi q len; subst q len.
  - cbn [repeat prompt_run fold_left]. repeat split; [lia | lia].
  - cbn [repeat prompt_run fold_left prompt_step].
    fold (prompt_run (repeat (PKey ArrowUp) k) (handleKeyDown ArrowUp p)).
    assert (Hlen : 0 < Z.of_nat (length (history p))).
    { destruct (history p); [congruence | cbn [length]; lia]. }
    set (p1 := handleKeyDown ArrowUp p).
    assert (H1 : history p1 = history p) by apply handleKeyDown_history.
    assert (I1 : historyIndex p1
                 = Z.min (historyIndex p + 1) (Z.of_nat (length (history p)) - 1)).
    { unfold p1, handleKeyDown. cbv zeta.
      rewrite (proj2 (Z.ltb_lt _ _) Hlen). cbn [historyIndex].
      destruct (Z.ltb_spec (historyIndex p) (Z.of_nat (length (history p)) - 1)); lia. }
    assert (C1 : command p1
                 = entry_or_empty (history p)
                     (Z.of_nat (length (history p)) - 1 - historyIndex p1)).
    { unfold p1, handleKeyDown. cbv zeta.
      rewrite (proj2 (Z.ltb_lt _ _) Hlen). reflexivity. }
    destruct (IH p1) as (Eh & Ei & Ec).
    { rewrite H1. exact Hne. }
    { rewrite H1, I1. lia. }
    rewrite H1 in Eh, Ei, Ec. split; [exact Eh|]. split.
    + rewrite Ei, I1. lia.
    + intros _. destruct k as [|k].
      * cbn [repeat prompt_run fold_left]. exact C1.
      * apply Ec. lia.
Qed.

(** [k] presses of ArrowDown. *)
Lemma arrow_down_run k : forall p,
  -1 <= historyIndex p ->
  let q := prompt_run (repeat (PKey ArrowDown) k) p in
  history q = history p
  /\ historyIndex q = Z.max (historyIndex p - Z.of_nat k) (-1)
  /\ ((0 < k)%nat -> historyIndex q = -1 -> command q = "").
Proof.
  induction k as [|k IH]; intros p Hi q; subst q.
  - cbn [repeat prompt_run fold_left]. repeat split; lia.
  - cbn [repeat prompt_run fold_left prompt_step].
    fold (prompt_run (repeat (PKey ArrowDown) k) (handleKeyDown ArrowDown p)).
    set (p1 := handleKeyDown ArrowDown p).
    assert (H1 : history p1 = history p) by apply handleKeyDown_history.
    assert (I1 : historyIndex p1 = Z.max (historyIndex p - 1) (-1)).
    { unfold p1, handleKeyDown. cbv zeta. cbn [historyIndex].
      destruct (Z.ltb_spec 0 (historyIndex p)); lia. }
    assert (C1 : historyIndex p1 = -1 -> command p1 = "").
    { unfold p1, handleKeyDown. cbv zeta. cbn [historyIndex command].
      intro E. rewrite E. reflexivity. }
    destruct (IH p1) as (Eh & Ei & Ec); [rewrite I1; lia|].
    split; [congruence|]. split; [rewrite Ei, I1; lia|].
    intros _ E. destruct k as [|k].
    + cbn [repeat prompt_run fold_left] in *. apply C1, E.
    + apply Ec; [lia | exact E].
Qed.

(** ** The typewriter *)

Lemma typewriter_after_spec {A} (text : list A) start delay k :
  let n := length text in
  let s := typewriter_after text start delay k in
  tw_i s = Nat.min k n
  /\ displayText s = firstn (Nat.min k n) text
  /\ showCursor s = true
  /\ tw_interval s = (k <=? n)%nat
  /\ tw_hide s = if (k <=? n)%nat then None
                 else Some (start + Z.of_nat (S n) * delay + 500).
Proof.
  intros n s. subst s. induction k as [|k IH].
  - cbn. repeat split; reflexivity.
  - destruct IH as (Ei & Ed & Ec & Er & Eh).
    cbn [typewriter_after]. rewrite Er.
    destruct (k <=? n)%nat eqn:Ek.
    + apply Nat.leb_le in Ek. unfold typewriter_tick. rewrite Ei.
      destruct (Nat.min k n <? length text)%nat eqn:El;
        cbn [tw_i displayText showCursor tw_interval tw_hide].
      * apply Nat.ltb_lt in El. fold n in El.
        replace (S k <=? n)%nat with true by (symmetry; apply Nat.leb_le; lia).
        replace (Nat.min k n + 1)%nat with (Nat.min (S k) n) by lia.
        repeat split; [lia | assumption | assumption | assumption].
      * apply Nat.ltb_ge in El. fold n in El.
        replace (S k <=? n)%nat with false by (symmetry; apply Nat.leb_gt; lia).
        replace (Nat.min (S k) n) with (Nat.min k n) by lia.
        replace (Z.of_nat (S k)) with (Z.of_nat (S n)) by lia.
        repeat split; assumption.
    + apply Nat.leb_gt in Ek.
      replace (S k <=? n)%nat with false by (symmetry; apply Nat.leb_gt; lia).
      replace (Nat.min (S k) n) with (Nat.min k n) by lia.
      repeat split; assumption.
Qed.

(** ** [formatUptime] *)

Lemma two_digits_table :
  forallb (fun k => two_digits (padStart 2 "0" (show_int (Z.of_nat k)))
                               (Z.of_nat k))
          (seq 0 100) = true.
Proof. vm_compute. reflexivity. Qed.

Lemma two_digits_padStart n :
  0 <= n < 100 -> two_digits (padStart 2 "0" (show_int n)) n = true.
Proof.
  intro H. pose proof (proj1 (forallb_forall _ _) two_digits_table (Z.to_nat n)) as T.
  cbv beta in T. rewrite Z2Nat.id in T by lia. apply T.
  apply in_seq. lia.
Qed.

Lemma two_digits_shape s n :
  two_digits s n = true ->
  exists a b, s = String a (String b EmptyString)
              /\ 0 <= digit a <= 9 /\ 0 <= digit b <= 9
              /\ 10 * digit a + digit b = n.
Proof.
  unfold two_digits. destruct s as [|a [|b [|c r]]]; try discriminate.
  intro H. repeat (apply andb_true_iff in H; destruct H as [H ?]).
  exists a, b. repeat split; try reflexivity; lia.
Qed.

Lemma formatUptime_shape s :
  0 <= s < 360000 ->
  exists a1 b1 a2 b2 a3 b3,
    formatUptime s
    = String a1 (String b1 (String ":" (String a2 (String b2 (String ":"
        (String a3 (String b3 EmptyString)))))))
    /\ 0 <= digit b1 <= 9 /\ 0 <= digit b2 <= 9 /\ 0 <= digit b3 <= 9
    /\ 0 <= digit a1 <= 9 /\ 0 <= digit a2 <= 9 /\ 0 <= digit a3 <= 9
    /\ s = 3600 * (10 * digit a1 + digit b1) + 60 * (10 * digit a2 + digit b2)
           + (10 * digit a3 + digit b3)
    /\ 10 * digit a2 + digit b2 < 60 /\ 10 * digit a3 + digit b3 < 60.
Proof.
  intro H. unfold formatUptime. cbv zeta.
  rewrite !Z.rem_mod_nonneg by lia.
  assert (Hh : 0 <= s / 3600 < 100) by (Z.div_mod_to_equations; lia).
  assert (Hm : 0 <= s mod 3600 / 60 < 60) by (Z.div_mod_to_equations; lia).
  assert (Hs : 0 <= s mod 60 < 60) by (Z.div_mod_to_equations; lia).
  destruct (two_digits_shape _ _ (two_digits_padStart _ Hh))
    as (a1 & b1 & E1 & A1 & B1 & V1).
  destruct (two_digits_shape _ _ (two_digits_padStart (s mod 3600 / 60) ltac:(lia)))
    as (a2 & b2 & E2 & A2 & B2 & V2).
  destruct (two_digits_shape _ _ (two_digits_padStart (s mod 60) ltac:(lia)))
    as (a3 & b3 & E3 & A3 & B3 & V3).
  exists a1, b1, a2, b2, a3, b3. rewrite E1, E2, E3.
  split; [reflexivity|]. repeat split; try lia.
  rewrite V1, V2, V3. Z.div_mod_to_equations. lia.
Qed.

(** ** The metrics panel *)

Lemma total_from (f : Agent.t -> Q) ags : forall acc,
  Forall (fun a => percent (f a)) ags ->
  (acc <= fold_left (fun acc a => acc + f a) ags acc)%Q
  /\ (fold_left (fun acc a => acc + f a) ags acc
      <= acc + 100 * inject_Z (Z.of_nat (length ags)))%Q.
Proof.
  induction ags as [|a r IH]; intros acc H; cbn [fold_left length].
  - change (inject_Z (Z.of_nat 0)) with 0%Q. split; lra.
  - inversion H as [|? ? [Ha0 Ha1] Hr]; subst.
    destruct (IH (acc + f a)%Q Hr) as [L U].
    rewrite Nat2Z.inj_succ, <- Z.add_1_r, inject_Z_plus.
    change (inject_Z 1) with 1%Q. split; lra.
Qed.

Lemma Math_round_percent q :
  (0 <= q)%Q -> (q <= 100)%Q -> 0 <= Math_round q <= 100.
Proof.
  intros H0 H1. unfold Math_round. split.
  - change 0 with (Qfloor 0). apply Qfloor_resp_le. lra.
  - change 100 with (Qfloor (100 + (1 # 2))). apply Qfloor_resp_le. lra.
Qed.

Lemma average_percent (f : Agent.t -> Q) ags :
  ags <> [] -> Forall (fun a => percent (f a)) ags ->
  exists z, average f ags = Some z /\ 0 <= z <= 100.
Proof.
  intros Hne H. unfold average. destruct ags as [|a r]; [congruence|].
  eexists. split; [reflexivity|].
  destruct (total_from f (a :: r) 0%Q H) as [L U]. fold (total f (a :: r)) in L, U.
  assert (Hn : (0 < inject_Z (Z.of_nat (length (a :: r))))%Q).
  { change 0%Q with (inject_Z 0). rewrite <- Zlt_Qlt. cbn [length]. lia. }
  apply Math_round_percent.
  - apply Qle_shift_div_l; [exact Hn | lra].
  - apply Qle_shift_div_r; [exact Hn | lra].
Qed.

Lemma count_with_status p s l :
  length (filter (fun a => Status_eqb (Agent.status a) p) (map (with_status s) l))
  = if Status_eqb s p then length l else 0%nat.
Proof.
  induction l as [|a r IH]; cbn [map filter length]; [destruct (Status_eqb s p); reflexivity|].
  cbn [with_status Agent.status]. destruct (Status_eqb s p); cbn [length]; rewrite IH; reflexivity.
Qed.

Lemma count_same_status p l l' :
  Forall2 (fun a a' => Agent.status a' = Agent.status a) l l' ->
  length (filter (fun a => Status_eqb (Agent.status a) p) l')
  = length (filter (fun a => Status_eqb (Agent.status a) p) l).
Proof.
  induction 1 as [|a a' l l' E _ IH]; [reflexivity|].
  cbn [filter]. rewrite E. destruct (Status_eqb _ _); cbn [length]; rewrite IH; reflexivity.
Qed.

(** Whatever is drawn, a tick either throws before it touches the roster
    or updates every agent. *)
Lemma tick_agents_any w :
  agents (run tick w) = agents w
  \/ Forall2 (ticked (now w)) (agents w) (agents (run tick w)).
Proof.
  remember (agents (run tick w)) as l eqn:E.
  unfold run, tick, bind at 1, getAgents in E. unfold bind at 1 in E.
  pose proof (log_only_tick_log (agents w) w) as F. unfold run in F.
  destruct (tick_log (agents w) w) as [[[]|] w1]; cbn [fst snd] in *.
  - right. destruct (mapM_update_agent (agents w1) w1) as (l' & El & Tl).
    unfold setAgents, bind, getAgents in E. rewrite El in E. cbn in E. subst l.
    rewrite (lo_agents _ _ F), (lo_now _ _ F) in Tl. exact Tl.
  - left. subst l. apply (lo_agents _ _ F).
Qed.

(** ** Selection *)

Lemma filter_selected_none id l :
  ~ In id (map Agent.id l) -> filter (isSelected (Some id)) l = [].
Proof.
  induction l as [|a r IH]; intro H; [reflexivity|].
  cbn [filter isSelected]. cbn [map In] in H.
  destruct (String.eqb_spec id (Agent.id a)); [subst; tauto|].
  apply IH. tauto.
Qed.

Lemma filter_selected_one l : forall a,
  NoDup (map Agent.id l) -> In a l ->
  filter (isSelected (Some (Agent.id a))) l = [a].
Proof.
  induction l as [|b r IH]; intros a Hn Hin; [contradiction|].
  cbn [map] in Hn. inversion Hn as [|? ? Hb Hr]; subst.
  cbn [filter isSelected]. destruct Hin as [<-|Hin].
  - rewrite String.eqb_refl. f_equal. apply filter_selected_none. exact Hb.
  - destruct (String.eqb_spec (Agent.id a) (Agent.id b)) as [E|E].
    + exfalso. apply Hb. rewrite <- E. apply in_map. exact Hin.
    + apply IH; assumption.
Qed.

(** ** Invariants of the page *)

Lemma chronological_skipn n : forall l, chronological l -> chronological (skipn n l).
Proof.
  unfold chronological. induction n as [|n IH]; intros l H; [exact H|].
  destruct l as [|x r]; [exact H|]. cbn [skipn]. apply IH.
  inversion H; assumption.
Qed.

Lemma chronological_snoc l x :
  chronological l ->
  Forall (fun e => LogEntry.timestamp e <= LogEntry.timestamp x) l ->
  chronological (l ++ [x]).
Proof.
  unfold chronological. induction l as [|a r IH]; intros H F; cbn [app].
  - constructor; constructor.
  - inversion H as [|? ? Hr Ha]; subst. inversion F as [|? ? Fa Fr]; subst.
    constructor; [apply IH; assumption|].
    apply Forall_app. split; [exact Ha | constructor; [exact Fa | constructor]].
Qed.

Lemma Forall_skipn {A} (P : A -> Prop) n : forall l, Forall P l -> Forall P (skipn n l).
Proof.
  induction n as [|n IH]; intros l H; [exact H|].
  destruct l as [|x r]; [exact H|]. cbn [skipn]. apply IH. inversion H; assumption.
Qed.

#[local] Instance keeps_health_preorder : PreOrder keeps_health.
Proof.
  split.
  - intro w. constructor; auto.
  - intros a b c [N1 S1 R1] [N2 S2 R2]. constructor; [congruence | auto | auto].
Qed.

Lemma steady_same w w' :
  agents w' = agents w -> logs w' = logs w -> now w' = now w ->
  steady w -> steady w'.
Proof.
  intros Ea El En [I N L O P]. constructor; rewrite ?Ea, ?El, ?En; assumption.
Qed.

Lemma health_same w w' :
  agents w' = agents w -> logs w' = logs w -> now w' = now w ->
  keeps_health w w'.
Proof.
  intros Ea El En. constructor; [exact En | apply steady_same; assumption|].
  rewrite Ea. auto.
Qed.

Lemma health_Math_random : preserves keeps_health Math_random.
Proof. intro w. apply health_same; reflexivity. Qed.

Lemma health_getAgents : preserves keeps_health getAgents.
Proof. intro w. apply health_same; reflexivity. Qed.

Lemma health_setTimeout cb d : preserves keeps_health (setTimeout cb d).
Proof. intro w. apply health_same; reflexivity. Qed.

Lemma health_setBootComplete b : preserves keeps_health (setBootComplete b).
Proof. intro w. apply health_same; reflexivity. Qed.

Lemma health_pick {A} (d : A) l : preserves keeps_health (pick d l).
Proof. intro w. apply health_same; reflexivity. Qed.

Lemma health_tick_messages : preserves keeps_health tick_messages.
Proof. intro w. apply health_same; reflexivity. Qed.

Lemma health_addLog a t m : preserves keeps_health (addLog a t m).
Proof.
  intro w. unfold run. rewrite addLog_eq. cbn [snd].
  constructor; [reflexivity | | auto].
  intros [I N L O P]. constructor; cbn [agents logs now logged]; try assumption.
  - rewrite length_app, slice_last_length. cbn [length]. lia.
  - apply chronological_snoc.
    + apply chronological_skipn. exact O.
    + apply Forall_skipn. exact P.
  - apply Forall_app. split; [apply Forall_skipn; exact P|].
    constructor; [cbn; lia | constructor].
Qed.

Lemma health_clear : preserves keeps_health (putLogs []).
Proof.
  intro w. constructor; [reflexivity | | auto].
  intros [I N L O P]. constructor; cbn; try assumption; try constructor. lia.
Qed.

Lemma map_with_status_id s l : map Agent.id (map (with_status s) l) = map Agent.id l.
Proof. rewrite map_map. reflexivity. Qed.

Lemma map_with_status_name s l :
  map Agent.name (map (with_status s) l) = map Agent.name l.
Proof. rewrite map_map. reflexivity. Qed.

Lemma health_set_status s :
  preserves keeps_health (setAgents (fun prev => ret (map (with_status s) prev))).
Proof.
  intro w. constructor; [reflexivity | |].
  - intros [I N L O P]. constructor; cbn; try assumption.
    + rewrite map_with_status_id. exact I.
    + rewrite map_with_status_name. exact N.
  - cbn. intro H. induction H as [|a r Ha _ IH]; cbn [map]; constructor; assumption.
Qed.

Lemma ticked_ids t l l' :
  Forall2 (ticked t) l l' ->
  map Agent.id l' = map Agent.id l /\ map Agent.name l' = map Agent.name l.
Proof.
  induction 1 as [|a a' l l' Ha _ [IH1 IH2]]; [split; reflexivity|].
  cbn [map]. rewrite IH1, IH2, (ticked_id _ _ _ Ha), (ticked_name _ _ _ Ha).
  split; reflexivity.
Qed.

Lemma ticked_in_range t l l' :
  Forall2 (ticked t) l l' -> Forall in_range l -> Forall in_range l'.
Proof.
  induction 1 as [|a a' l l' Ha _ IH]; intro H; [constructor|].
  inversion H as [|? ? (_ & _ & U & T) Hr]; subst. constructor; [|apply IH; exact Hr].
  repeat split; try apply (ticked_cpu _ _ _ Ha); try apply (ticked_memory _ _ _ Ha).
  - rewrite (ticked_uptime _ _ _ Ha). lia.
  - rewrite (ticked_task _ _ _ Ha). exact T.
Qed.

Lemma health_update_agents : preserves keeps_health (setAgents (mapM update_agent)).
Proof.
  intro w. destruct (mapM_update_agent (agents w) w) as (l' & El & Tl).
  unfold run, setAgents, bind, getAgents. rewrite El. cbn [snd putAgents].
  destruct (ticked_ids _ _ _ Tl) as [Ei En].
  constructor; [reflexivity | |].
  - intros [I N L O P]. constructor; cbn; try assumption; congruence.
  - cbn. apply (ticked_in_range _ _ _ Tl).
Qed.

(** Goes through a computation built from the primitives above. *)
Ltac health_leaf :=
  match goal with
  | |- preserves _ Math_random => apply health_Math_random
  | |- preserves _ getAgents => apply health_getAgents
  | |- preserves _ (setTimeout _ _) => apply health_setTimeout
  | |- preserves _ (setBootComplete _) => apply health_setBootComplete
  | |- preserves _ (pick _ _) => apply health_pick
  | |- preserves _ tick_messages => apply health_tick_messages
  | |- preserves _ (addLog _ _ _) => apply health_addLog
  | |- preserves _ (putLogs []) => apply health_clear
  | |- preserves _ (setAgents (mapM update_agent)) => apply health_update_agents
  | |- preserves _ (setAgents _) => apply health_set_status
  | |- preserves _ (ret _) => apply preserves_ret; exact _
  | |- preserves _ throw => apply preserves_throw; exact _
  end.

Ltac health :=
  repeat first
    [ health_leaf
    | match goal with
      | |- preserves _ (bind _ _) => apply preserves_bind; [exact _ | | intro]
      | |- preserves _ (forEach _ _) =>
          apply preserves_forEach; [exact _ | intros ? ? ?]
      | |- preserves _ (if ?c then _ else _) => destruct c
      | |- preserves _ (match ?c with _ => _ end) => destruct c
      end ].

Lemma health_tick : preserves keeps_health tick.
Proof. unfold tick, tick_log. health. Qed.

Lemma health_handleCommand cmd : preserves keeps_health (handleCommand cmd).
Proof. unfold handleCommand. cbv zeta. health. Qed.

Lemma health_handleSubmit cmd : preserves keeps_health (handleSubmit cmd).
Proof. unfold handleSubmit. health. apply health_handleCommand. Qed.

Lemma health_run_callback cb : preserves keeps_health (run_callback cb).
Proof. destruct cb; cbn [run_callback]; health. Qed.

Lemma steady_set_now w t : steady w -> now w <= t -> steady (set_now t w).
Proof.
  intros [I N L O P] H. constructor; cbn; try assumption.
  eapply Forall_impl; [|exact P]. cbn. intros; lia.
Qed.

Lemma steady_commit w0 w : steady w -> steady (commit w0 w).
Proof.
  apply steady_same; [apply commit_agents | apply commit_logs|].
  unfold commit. destruct (deps_changed w0 w); [|reflexivity].
  unfold run, tick_effect. cbn. destruct (bootComplete w); reflexivity.
Qed.

(** One step of a session keeps both invariants and does not move the
    clock back. *)
Lemma health_step i w fs w' :
  step i w = Some (fs, w') ->
  (steady w -> steady w')
  /\ (Forall in_range (agents w) -> Forall in_range (agents w'))
  /\ now w <= now w'.
Proof.
  intro H. destruct i as [|t cmd]; cbn [step] in H.
  - unfold fire in H.
    destruct (next_pending w) as [[t|i d]|]; [| |discriminate];
      inversion H; subst fs w'; clear H.
    + set (w1 := set_timers _ _).
      pose proof (health_run_callback (callback t) w1) as [N S R].
      split; [|split].
      * intro Hs. apply steady_commit, S.
        apply (steady_same (set_now (Z.max (now w) (due t)) w));
          try reflexivity.
        apply steady_set_now; [exact Hs | lia].
      * rewrite commit_agents. exact R.
      * replace (now (commit w1 (run (run_callback (callback t)) w1)))
          with (now (run (run_callback (callback t)) w1)).
        { rewrite N. cbn. lia. }
        unfold commit. destruct (deps_changed _ _); [|reflexivity].
        unfold run at 1, tick_effect. cbn. destruct (bootComplete _); reflexivity.
    + set (w1 := set_interval _ _).
      pose proof (health_tick w1) as [N S R].
      split; [|split].
      * intro Hs. apply steady_commit, S.
        apply (steady_same (set_now (Z.max (now w) d) w)); try reflexivity.
        apply steady_set_now; [exact Hs | lia].
      * rewrite commit_agents. exact R.
      * replace (now (commit w1 (run tick w1))) with (now (run tick w1)).
        { rewrite N. cbn. lia. }
        unfold commit. destruct (deps_changed _ _); [|reflexivity].
        unfold run at 1, tick_effect. cbn. destruct (bootComplete _); reflexivity.
  - destruct (can_submit t w) eqn:Ec; [|discriminate].
    inversion H; subst fs w'; clear H.
    unfold can_submit in Ec. apply andb_true_iff in Ec. destruct Ec as [Ec _].
    apply Z.leb_le in Ec.
    pose proof (health_handleSubmit cmd (set_now t w)) as [N S R].
    split; [|split].
    + intro Hs. apply steady_commit, S, steady_set_now; assumption.
    + rewrite commit_agents. exact R.
    + replace (now (commit (set_now t w) (run (handleSubmit cmd) (set_now t w))))
        with (now (run (handleSubmit cmd) (set_now t w))).
      { rewrite N. cbn. exact Ec. }
      unfold commit. destruct (deps_changed _ _); [|reflexivity].
      unfold run at 1, tick_effect. cbn. destruct (bootComplete _); reflexivity.
Qed.

Lemma health_exec ins : forall w fs w',
  exec ins w = Some (fs, w') ->
  (steady w -> steady w')
  /\ (Forall in_range (agents w) -> Forall in_range (agents w'))
  /\ now w <= now w'.
Proof.
  induction ins as [|i r IH]; intros w fs w' H; cbn [exec] in H.
  - inversion H; subst. split; [auto|]. split; [auto | lia].
  - destruct (step i w) as [[f1 w1]|] eqn:Es; [|discriminate].
    destruct (exec r w1) as [[f2 w2]|] eqn:Er; [|discriminate].
    inversion H; subst fs w'; clear H.
    destruct (health_step _ _ _ _ Es) as (S1 & R1 & N1).
    destruct (IH _ _ _ Er) as (S2 & R2 & N2).
    split; [auto|]. split; [auto | lia].
Qed.

(** ** The first roster *)

Lemma floor_scaled_Z (r : Q) (n : Z) :
  (0 <= r)%Q -> (r < 1)%Q -> 0 < n -> 0 <= Math_floor (r * inject_Z n) < n.
Proof.
  intros H0 H1 Hn. unfold Math_floor.
  assert (Hp : (0 < inject_Z n)%Q).
  { change 0%Q with (inject_Z 0). rewrite <- Zlt_Qlt. exact Hn. }
  split.
  - change 0 with (Qfloor (inject_Z 0)) at 1. apply Qfloor_resp_le.
    change (inject_Z 0) with 0%Q. apply Qmult_le_0_compat; [assumption|].
    apply Qlt_le_weak; assumption.
  - rewrite Zlt_Qlt. eapply Qle_lt_trans; [apply Qfloor_le|].
    rewrite <- (Qmult_1_l (inject_Z n)) at 2.
    apply Qmult_lt_r; assumption.
Qed.

Lemma nth_In_default {A} (l : list A) (d : A) n : In d l -> In (nth n l d) l.
Proof.
  intro H. destruct (Nat.lt_ge_cases n (length l)) as [L|L].
  - apply nth_In. exact L.
  - rewrite nth_overflow by exact L. exact H.
Qed.

Lemma generateAgent_spec index w :
  exists a,
    generateAgent index w = (Some a, skip_draws 6 w)
    /\ Agent.id a = "agent-" ++ show_int index
    /\ Agent.name a = nth (Z.to_nat (index mod 6)) AGENT_NAMES ""
    /\ (unit_source (random_src w) -> generated (now w) index a).
Proof.
  cbv beta iota zeta delta [generateAgent bind pick Math_random Date_now ret].
  cbn [random_src random_pos now].
  eexists. split; [reflexivity|]. split; [reflexivity|]. split; [reflexivity|].
  intro U. constructor; cbn [Agent.id Agent.name Agent.status Agent.task
                              Agent.cpu Agent.memory Agent.uptime Agent.lastPing].
  - reflexivity.
  - reflexivity.
  - apply nth_In_default. cbn. tauto.
  - apply nth_In.
    destruct (U (S (random_pos w))) as [H0 H1].
    pose proof (floor_scaled_Z _ 8 H0 H1 ltac:(lia)) as B.
    change (inject_Z 8) with (inject_Z (Z.of_nat (length TASKS))) in B.
    set (k := Math_floor _) in *. change (length TASKS) with 8%nat. lia.
  - destruct (U (S (S (random_pos w)))) as [H0 H1].
    eexists. split; [reflexivity|].
    pose proof (floor_scaled_Z _ 100 H0 H1 ltac:(lia)) as B.
    change (inject_Z 100) with 100%Q in B. lia.
  - destruct (U (S (S (S (random_pos w))))) as [H0 H1].
    eexists. split; [reflexivity|].
    pose proof (floor_scaled_Z _ 100 H0 H1 ltac:(lia)) as B.
    change (inject_Z 100) with 100%Q in B. lia.
  - destruct (U (S (S (S (S (random_pos w)))))) as [H0 H1].
    pose proof (floor_scaled_Z _ 86400 H0 H1 ltac:(lia)) as B.
    change (inject_Z 86400) with 86400%Q in B. lia.
  - destruct (U (S (S (S (S (S (random_pos w))))))) as [H0 H1].
    pose proof (floor_scaled_Z _ 10000 H0 H1 ltac:(lia)) as B.
    change (inject_Z 10000) with 10000%Q in B. lia.
Qed.

Lemma mapM_generateAgent l : forall w,
  exists ags,
    mapM generateAgent l w = (Some ags, skip_draws (6 * length l) w)
    /\ Forall2 (fun i a =>
                  Agent.id a = "agent-" ++ show_int i
                  /\ Agent.name a = nth (Z.to_nat (i mod 6)) AGENT_NAMES ""
                  /\ (unit_source (random_src w) -> generated (now w) i a))
               l ags.
Proof.
  induction l as [|i l IH]; intro w.
  - exists []. split; [destruct w; reflexivity | constructor].
  - destruct (generateAgent_spec i w) as (a & Ea & Ia & Na & Ga).
    destruct (IH (skip_draws 6 w)) as (ags & El & Fl).
    exists (a :: ags). split.
    + cbn [mapM]. unfold bind at 1. rewrite Ea. unfold bind at 1. rewrite El.
      unfold ret, skip_draws; cbn. repeat f_equal. lia.
    + constructor; [auto | exact Fl].
Qed.

Lemma mount_roster start rnd :
  Forall2 (fun i a =>
             Agent.id a = "agent-" ++ show_int i
             /\ Agent.name a = nth (Z.to_nat (i mod 6)) AGENT_NAMES ""
             /\ (unit_source rnd -> generated start i a))
          [0; 1; 2; 3; 4; 5] (agents (mount start rnd)).
Proof.
  destruct (mapM_generateAgent [0; 1; 2; 3; 4; 5] (initial start rnd))
    as (ags & E & F).
  unfold mount, run. unfold bind at 1. rewrite E. exact F.
Qed.

Lemma Forall2_map_eq {A B C} (f : A -> C) (g : B -> C) l l' :
  Forall2 (fun x y => g y = f x) l l' -> map g l' = map f l.
Proof. induction 1; cbn [map]; congruence. Qed.

Lemma steady_mount start rnd : steady (mount start rnd).
Proof.
  pose proof (mount_roster start rnd) as F.
  destruct (mount_state start rnd) as (EN & _ & EL & _).
  constructor; rewrite ?EL.
  - rewrite (Forall2_map_eq (fun i => "agent-" ++ show_int i) Agent.id
               [0; 1; 2; 3; 4; 5]); [reflexivity|].
    eapply Forall2_impl; [|exact F]. cbn. tauto.
  - rewrite (Forall2_map_eq (fun i => nth (Z.to_nat (i mod 6)) AGENT_NAMES "")
               Agent.name [0; 1; 2; 3; 4; 5]); [reflexivity|].
    eapply Forall2_impl; [|exact F]. cbn. tauto.
  - cbn. lia.
  - constructor.
  - constructor.
Qed.



(** ** The log half of the tick *)





(** ** Staggered timers *)

Lemma forEach_staggered {A} (f : A -> Callback) gap (l : list A) : forall k w,
  forEach_from (fun a i => setTimeout (f a) (i * gap)) k l w
  = (Some tt, queued (staggered f gap (next_timer w) (now w) k l) w).
Proof.
  induction l as [|a r IH]; intros k w.
  - cbn. unfold ret, queued. cbn. rewrite app_nil_r. destruct w; reflexivity.
  - cbn [forEach_from staggered]. unfold bind, setTimeout at 1.
    rewrite IH. unfold queued. cbn. rewrite <- app_assoc. cbn.
    repeat f_equal. lia.
Qed.

Lemma staggered_length {A} (f : A -> Callback) gap (l : list A) : forall i t0 k,
  length (staggered f gap i t0 k l) = length l.
Proof. induction l; intros; cbn; [reflexivity | f_equal; auto]. Qed.

Lemma staggered_nth {A} (f : A -> Callback) gap (l : list A) : forall i t0 k n a,
  nth_error l n = Some a ->
  nth_error (staggered f gap i t0 k l) n
  = Some (mkTimer (i + n) (t0 + (k + Z.of_nat n) * gap) (f a)).
Proof.
  induction l as [|b r IH]; intros i t0 k n a H.
  - destruct n; discriminate.
  - destruct n as [|n]; cbn [nth_error staggered] in H |- *.
    + inversion H; subst. repeat f_equal; lia.
    + rewrite (IH _ _ _ _ _ H).
      replace (S i + n)%nat with (i + S n)%nat by lia.
      replace (k + 1 + Z.of_nat n) with (k + Z.of_nat (S n)) by lia.
      reflexivity.
Qed.

Lemma handleCommand_help cmd :
  trim (toLowerCase cmd) = "help" ->
  handleCommand cmd =
  (addLog "USER" ty_info ("$ " ++ cmd) ;;;
   forEach (fun line i => setTimeout (CbAddLog "SYSTEM" ty_info line) (i * 50))
           helpLines).
Proof. intro H. unfold handleCommand. rewrite H. reflexivity. Qed.

(** ** What commands leave of the tick effect *)

#[local] Instance deps_kept_preorder : PreOrder deps_kept.
Proof.
  split.
  - intro w. constructor; reflexivity.
  - intros a b c [] []. constructor; congruence.
Qed.

Lemma deps_addLog a t m : preserves deps_kept (addLog a t m).
Proof. intro w. constructor; reflexivity. Qed.

Lemma deps_setTimeout cb d : preserves deps_kept (setTimeout cb d).
Proof. intro w. constructor; reflexivity. Qed.

Lemma deps_handleCommand cmd :
  trim (toLowerCase cmd) <> "restart" -> preserves deps_kept (handleCommand cmd).
Proof.
  intro H. unfold handleCommand. cbv zeta.
  apply preserves_bind; [exact _ | apply deps_addLog | intros _].
  destruct (_ || _).
  { apply preserves_bind; [exact _ | | intro ags].
    { intro w. constructor; reflexivity. }
    apply preserves_forEach; [exact _|]. intros. apply deps_setTimeout. }
  destruct (_ =? "deploy")%string.
  { apply preserves_bind; [exact _ | apply deps_addLog | intros _].
    apply deps_setTimeout. }
  destruct (String.eqb_spec (trim (toLowerCase cmd)) "restart"); [contradiction|].
  destruct (_ =? "scan")%string.
  { apply preserves_bind; [exact _ | apply deps_addLog | intros _].
    apply deps_setTimeout. }
  destruct (_ =? "help")%string.
  { apply preserves_forEach; [exact _|]. intros. apply deps_setTimeout. }
  destruct (_ =? "clear")%string.
  { intro w. constructor; reflexivity. }
  apply deps_addLog.
Qed.

Lemma deps_kept_commit w w' : deps_kept w w' -> commit w w' = w'.
Proof.
  intros [_ G B _ _]. unfold commit, deps_changed. rewrite G, B.
  rewrite Bool.eqb_reflx, Nat.eqb_refl. reflexivity.
Qed.


Lemma commit_timers w0 w : timers (commit w0 w) = timers w.
Proof.
  unfold commit. destruct (deps_changed w0 w); [|reflexivity].
  unfold run, tick_effect. cbn. destruct (bootComplete w); reflexivity.
Qed.

(** ** The added functions on concrete inputs *)

Example formatUptime_samples :
  formatUptime 0 = "00:00:00" /\ formatUptime 3661 = "01:01:01"
  /\ formatUptime 86399 = "23:59:59" /\ formatUptime 360000 = "100:00:00"
  /\ formatUptime (-1) = "-1:-1:-1".
Proof. repeat split; reflexivity. Qed.

Example panel_of_two :
  activeCount two_agents = 1%nat /\ errorCount two_agents = 1%nat
  /\ avgCpu two_agents = Some 8 /\ avgMem two_agents = Some 89
  /\ load_color (avgMem two_agents) = "#ff006e"
  /\ load_color (avgCpu []) = "#00d4ff"
  /\ error_color (errorCount two_agents) = "#ff006e".
Proof. repeat split; reflexivity. Qed.

Example prompt_session :
  prompt_run [PType "status"; PSubmit; PType "  "; PSubmit; PType " LS";
              PSubmit; PType "dra"; PKey ArrowUp; PKey ArrowUp; PKey ArrowUp]
             prompt0
  = mkPrompt "status" ["status"; " LS"] 1.
Proof. reflexivity. Qed.

Example blank_stays_in_the_box :
  prompt_run [PType "  "; PSubmit] prompt0 = mkPrompt "  " [] (-1).
Proof. reflexivity. Qed.

Example typewriter_on_three :
  displayText (typewriter_after [1; 2; 3] 0 30 2) = [1; 2]
  /\ tw_hide (typewriter_after [1; 2; 3] 0 30 3) = None
  /\ tw_hide (typewriter_after [1; 2; 3] 0 30 4) = Some 620
  /\ typewriter_after [1; 2; 3] 0 30 9 = typewriter_after [1; 2; 3] 0 30 4.
Proof. repeat split; reflexivity. Qed.

(** ** Properties of the specification *)

(** C1.  After a tick every agent's [cpu] and [memory] lie in [0,100],
    whatever they were before and whatever deltas the draws of
    [Math.random] (numbers of [0,1)) produce. *)
Theorem tick_clamps_cpu_memory (w : World) :
  unit_draws w ->
  Forall (fun a => percent (Agent.cpu a) /\ percent (Agent.memory a))
         (agents (run tick w)).
Proof.
  intro U. pose proof (tick_agents w U) as T.
  induction T as [|a a' l l' Ha _ IH]; constructor; [|exact IH].
  split; [apply (ticked_cpu _ _ _ Ha) | apply (ticked_memory _ _ _ Ha)].
Qed.

(** C10.  A tick leaves [id], [name], [status] and [task] of every agent as
    they were: the roster after the tick lists the same agents in the same
    order, differing at most in [cpu], [memory], [uptime] and [lastPing]. *)
Theorem tick_frame_fields (w : World) :
  unit_draws w ->
  Forall2 (fun a a' =>
             Agent.id a' = Agent.id a /\ Agent.name a' = Agent.name a /\
             Agent.status a' = Agent.status a /\ Agent.task a' = Agent.task a)
          (agents w) (agents (run tick w)).
Proof.
  intro U. pose proof (tick_agents w U) as T.
  induction T as [|a a' l l' Ha _ IH]; constructor; [|exact IH].
  destruct Ha; auto.
Qed.

(** C4.  A line whose lowercased, trimmed form is no keyword adds exactly
    two entries to the log, the echo ["$ " ++ cmd] from "USER" with
    severity info, then an error entry whose message is
    [Unknown command: <cmd>. Type 'help' for available commands.]; nothing
    is scheduled and the roster is untouched. *)
Theorem unknown_command_two_entries (cmd : string) (w : World) :
  ~ In (trim (toLowerCase cmd)) keywords ->
  exists e1 e2,
    logs (run (handleCommand cmd) w) = (slice_last 99 (logs w) ++ [e1; e2])%list
    /\ LogEntry.agent e1 = "USER" /\ LogEntry.type e1 = ty_info
    /\ LogEntry.message e1 = "$ " ++ cmd
    /\ LogEntry.type e2 = ty_error
    /\ LogEntry.message e2 =
       "Unknown command: " ++ cmd ++ ". Type 'help' for available commands."
    /\ timers (run (handleCommand cmd) w) = timers w
    /\ agents (run (handleCommand cmd) w) = agents w.
Proof.
  intro H. rewrite (handleCommand_unknown cmd H).
  unfold run, bind. rewrite !addLog_eq. cbn [snd logs logged timers agents].
  do 2 eexists. split.
  { rewrite (slice_last_snoc 99), slice_last_slice_last by lia.
    rewrite <- app_assoc. reflexivity. }
  repeat split; reflexivity.
Qed.

(** C5.  [clear] empties the log at once: the echo of the command goes
    with the rest, no entry is produced and nothing is scheduled. *)
Theorem clear_empties_log (cmd : string) (w : World) :
  trim (toLowerCase cmd) = "clear" ->
  logs (run (handleCommand cmd) w) = []
  /\ timers (run (handleCommand cmd) w) = timers w
  /\ agents (run (handleCommand cmd) w) = agents w.
Proof.
  intro H. rewrite (handleCommand_clear cmd H). repeat split; reflexivity.
Qed.

(** C9.  [deploy] and [scan] only write to the log: the command leaves the
    roster as it is, whether run on its own or submitted through the input
    box, and so does the completion it schedules when it fires. *)
Theorem deploy_scan_keep_roster (cmd : string) (w : World) :
  trim (toLowerCase cmd) = "deploy" \/ trim (toLowerCase cmd) = "scan" ->
  agents (run (handleCommand cmd) w) = agents w
  /\ (forall t fs w', step (Submit t cmd) w = Some (fs, w') ->
                      agents w' = agents w)
  /\ exists d msg,
       timers (run (handleCommand cmd) w)
       = (timers w ++ [mkTimer (next_timer w) (now w + d)
                               (CbAddLog "SYSTEM" ty_success msg)])%list
       /\ forall w0, agents (run (run_callback (CbAddLog "SYSTEM" ty_success msg)) w0)
                     = agents w0.
Proof.
  intro H.
  assert (E : agents (run (handleCommand cmd) w) = agents w
              /\ forall w0, agents (run (handleCommand cmd) w0) = agents w0).
  { destruct H as [H|H];
      [rewrite (handleCommand_deploy cmd H) | rewrite (handleCommand_scan cmd H)];
      split; reflexivity. }
  destruct E as [E1 E2]. split; [exact E1|]. split.
  - intros t fs w' Hs. cbn [step] in Hs.
    destruct (can_submit t w); [|discriminate]. inversion Hs; subst.
    rewrite commit_agents.
    destruct (handleSubmit_cases cmd) as [C|C]; rewrite C;
      [reflexivity | rewrite E2; reflexivity].
  - destruct H as [H|H].
    + exists 2000, "Deployment successful. All agents updated.".
      rewrite (handleCommand_deploy cmd H). split; [reflexivity|].
      intro w0. reflexivity.
    + exists 2500, "Scan complete. No threats detected.".
      rewrite (handleCommand_scan cmd H). split; [reflexivity|].
      intro w0. reflexivity.
Qed.

(** C3.  [restart] sets every status to "idle" and logs a warning at once,
    and queues a completion due exactly 3000ms after the submission; when
    the event loop reaches that timer the clock reads the submission time
    plus 3000, every status becomes "active" and a success entry is
    logged. *)
Theorem restart_idle_then_active (cmd : string) (w : World) :
  trim (toLowerCase cmd) = "restart" ->
  let w' := run (handleCommand cmd) w in
  let t := mkTimer (next_timer w) (now w + 3000) CbRestartDone in
  agents w' = map (with_status st_idle) (agents w)
  /\ Forall (fun a => Agent.status a = st_idle) (agents w')
  /\ (exists e1 e2,
        logs w' = (slice_last 99 (logs w) ++ [e1; e2])%list
        /\ LogEntry.message e1 = "$ " ++ cmd
        /\ LogEntry.type e2 = ty_warning
        /\ LogEntry.message e2 = "Restarting all agents...")
  /\ timers w' = (timers w ++ [t])%list
  /\ forall w1 f w2,
       next_pending w1 = Some (PTimeout t) -> now w1 <= due t ->
       fire w1 = Some (f, w2) ->
       f = (now w + 3000, RanCallback CbRestartDone)
       /\ agents w2 = map (with_status st_active) (agents w1)
       /\ Forall (fun a => Agent.status a = st_active) (agents w2)
       /\ exists e,
            logs w2 = (slice_last 100 (logs w1) ++ [e])%list
            /\ LogEntry.type e = ty_success
            /\ LogEntry.message e = "All agents restarted successfully.".
Proof.
  intros H w' t. subst w'. rewrite (handleCommand_restart cmd H).
  split; [reflexivity|]. split; [apply Forall_map_with_status|].
  split.
  { unfold run, bind. rewrite !addLog_eq.
    unfold setAgents, bind, getAgents, ret, putAgents, setTimeout.
    cbn [fst snd logs logged].
    do 2 eexists. split.
    { rewrite (slice_last_snoc 99), slice_last_slice_last by lia.
      rewrite <- app_assoc. reflexivity. }
    repeat split; reflexivity. }
  split; [reflexivity|].
  intros w1 f w2 Hp Hd Hf. rewrite (fire_timeout w1 t Hp Hd) in Hf.
  inversion Hf; subst f w2; clear Hf.
  rewrite commit_agents, commit_logs.
  split; [reflexivity|]. split; [reflexivity|].
  split; [apply Forall_map_with_status|].
  eexists. split; [reflexivity|]. split; reflexivity.
Qed.

(** C8.  [status] and [ls] queue one timer per agent, in roster order, the
    one for the agent of index [i] due [i * 100] ms after the submission;
    when it fires it logs one line made of the agent's name, its status in
    upper case, its cpu and its memory rounded to integers, with severity
    error for an agent in status "error" and info otherwise. *)
Theorem status_lines_staggered (cmd : string) (w : World) :
  trim (toLowerCase cmd) = "status" \/ trim (toLowerCase cmd) = "ls" ->
  exists new,
    timers (run (handleCommand cmd) w) = (timers w ++ new)%list
    /\ length new = length (agents w)
    /\ forall i a, nth_error (agents w) i = Some a ->
       exists t,
         nth_error new i = Some t
         /\ due t = now w + Z.of_nat i * 100
         /\ forall w0, exists e cpu mem,
              logs (run (run_callback (callback t)) w0)
              = (slice_last 100 (logs w0) ++ [e])%list
              /\ rounds_to (Agent.cpu a) cpu
              /\ rounds_to (Agent.memory a) mem
              /\ LogEntry.message e =
                 Agent.name a ++ ": " ++ STATUS (Agent.status a)
                   ++ " | CPU: " ++ show_int cpu ++ "% | MEM: "
                   ++ show_int mem ++ "%"
              /\ LogEntry.type e =
                 match Agent.status a with
                 | st_error => ty_error
                 | _ => ty_info
                 end.
Proof.
  intro H. rewrite (handleCommand_status cmd H).
  unfold run, bind. rewrite addLog_eq. unfold getAgents, forEach.
  rewrite forEach_status_timers. cbn [snd timers queued logged agents next_timer now].
  eexists. split; [reflexivity|]. split; [apply status_timers_length|].
  intros i a Ha. eexists. split; [apply status_timers_nth; exact Ha|].
  cbn [due callback]. split; [reflexivity|].
  intro w0. exists (log_entry w0 "SYSTEM" (status_type a) (status_line a)),
    (Math_round (Agent.cpu a)), (Math_round (Agent.memory a)).
  split; [reflexivity|].
  split; [apply Math_round_rounds|]. split; [apply Math_round_rounds|].
  split.
  - cbn [LogEntry.message log_entry]. unfold status_line.
    rewrite toUpperCase_status. reflexivity.
  - cbn [LogEntry.type log_entry]. unfold status_type.
    destruct (Agent.status a); reflexivity.
Qed.

(** C7.  A tick adds exactly 1 to the uptime of every agent.  Nothing else
    in the program writes to it, so over any session the uptime of an agent
    has grown by the number of ticks that ran, and never decreases. *)
Theorem tick_uptime_plus_one (w : World) :
  unit_draws w ->
  Forall2 (fun a a' => Agent.uptime a' = Agent.uptime a + 1)
          (agents w) (agents (run tick w))
  /\ forall ins fs w',
       exec ins w = Some (fs, w') ->
       Forall2 (fun a a' =>
                  Agent.uptime a' = Agent.uptime a + Z.of_nat (count_ticks fs)
                  /\ Agent.uptime a <= Agent.uptime a')
               (agents w) (agents w').
Proof.
  intro U. split; [apply tick_uptime_grown; exact U|].
  intros ins fs w' H. pose proof (uptime_exec ins w fs w' U H) as G.
  unfold uptime_grown in G.
  induction G as [|a a' l l' Ha _ IH]; constructor; [|exact IH].
  split; [exact Ha | lia].
Qed.

(** C6.  The first render queues the five boot messages at 300, 800, 1200,
    1600 and 2000 ms and the boot flag at 2500 ms, with no interval
    installed.  Left alone, the event loop logs the five messages in that
    order, from "SYSTEM" with severity system, sets the flag at 2500 ms and
    runs the first tick at 4000 ms.  Whatever the user submits meanwhile,
    the turns of the boot sequence come in that order at those times, the
    flag is set exactly when the 2500 ms turn has run, and every tick comes
    after that turn, no sooner than 4000 ms. *)
Theorem boot_sequence (start : Z) (rnd : nat -> Q) :
  (timers (mount start rnd) = boot_timers start
   /\ logs (mount start rnd) = []
   /\ bootComplete (mount start rnd) = false
   /\ interval (mount start rnd) = None)
  /\ (exists w5 w6 w7,
        exec (repeat Fire 5) (mount start rnd)
        = Some (firstn 5 (boot_trace start), w5)
        /\ map shown (logs w5) = boot_log start
        /\ bootComplete w5 = false
        /\ interval w5 = None
        /\ fire w5 = Some (boot_done start, w6)
        /\ bootComplete w6 = true
        /\ logs w6 = logs w5
        /\ interval w6 = Some (6%nat, start + 4000)
        /\ fire w6 = Some ((start + 4000, RanTick), w7))
  /\ forall ins fs w,
       exec ins (mount start rnd) = Some (fs, w) ->
       filter is_boot fs = firstn (boots fs) (boot_trace start)
       /\ (bootComplete w = true <-> In (boot_done start) fs)
       /\ (bootComplete w = false -> interval w = None)
       /\ forall pre t post,
            fs = (pre ++ (t, RanTick) :: post)%list ->
            In (boot_done start) pre /\ start + 4000 <= t.
Proof.
  split.
  { destruct (mount_state start rnd) as (_ & _ & EL & EB & ET & _ & EI & _).
    auto. }
  split; [apply boot_run_mount|].
  intros ins fs w H.
  pose proof (session_exec start ins [] _ _ _ (session_mount start rnd) H) as S.
  cbn [app] in S. destruct S as [_ _ _ _ Hf Hb Hd Hv Hk].
  split; [exact Hf|]. split; [|split; [|exact Hk]].
  - split; [intro E; apply Hd; exact E|].
    intro Hin. rewrite Hb. apply Nat.leb_le.
    apply (boot_done_fired start). rewrite <- Hf.
    apply filter_In. split; [exact Hin | reflexivity].
  - intro E. destruct (interval w) as [[i d]|]; [|reflexivity].
    destruct (Hv i d eq_refl) as [E' _]. congruence.
Qed.

(** C2.  The log does grow past 100 entries: after the five boot messages
    and 48 unknown commands it holds 101.  An append keeps the last 100
    entries of the log, the oldest ones going first, and adds the new one,
    so that the length afterwards is [min (length before) 100 + 1]. *)
Theorem log_reaches_101 :
  option_map (fun p => length (logs (snd p))) (exec filling_session demo)
  = Some 101%nat
  /\ forall a t m w,
       length (logs (run (addLog a t m) w)) = S (Nat.min (length (logs w)) 100)
       /\ logs (run (addLog a t m) w)
          = (slice_last 100 (logs w) ++ [log_entry w a t m])%list
       /\ exists old, logs w = (old ++ slice_last 100 (logs w))%list.
Proof.
  split; [vm_compute; reflexivity|].
  intros a t m w. split; [apply addLog_length|].
  split; [reflexivity | apply slice_last_suffix].
Qed.

(** ** The properties on concrete pages *)

Lemma half_unit_draws (w : World) : random_src w = half -> unit_draws w.
Proof.
  intros E n. rewrite E. split; [unfold Qle | unfold Qlt]; cbn; lia.
Defined.

Lemma demo_unit_draws : unit_draws demo.
Proof. apply half_unit_draws. reflexivity. Defined.

Lemma demo_wild_unit_draws : unit_draws demo_wild.
Proof. apply half_unit_draws. reflexivity. Defined.

Lemma tick_clamps_cpu_memory_witness :
  unit_draws demo_wild
  /\ Forall (fun a => percent (Agent.cpu a) /\ percent (Agent.memory a))
            (agents (run tick demo_wild)).
Proof.
  split; [exact demo_wild_unit_draws|].
  apply (tick_clamps_cpu_memory demo_wild). exact demo_wild_unit_draws.
Defined.

Lemma tick_frame_fields_witness :
  unit_draws demo
  /\ Forall2 (fun a a' =>
                Agent.id a' = Agent.id a /\ Agent.name a' = Agent.name a /\
                Agent.status a' = Agent.status a /\ Agent.task a' = Agent.task a)
             (agents demo) (agents (run tick demo)).
Proof.
  split; [exact demo_unit_draws|].
  apply (tick_frame_fields demo). exact demo_unit_draws.
Defined.

Lemma tick_uptime_plus_one_witness :
  unit_draws demo
  /\ Forall2 (fun a a' => Agent.uptime a' = Agent.uptime a + 1)
             (agents demo) (agents (run tick demo)).
Proof.
  split; [exact demo_unit_draws|].
  apply (tick_uptime_plus_one demo). exact demo_unit_draws.
Defined.

Lemma foobar_not_keyword : ~ In (trim (toLowerCase "foobar")) keywords.
Proof.
  vm_compute. intro H.
  repeat (destruct H as [H|H]; [discriminate H|]). exact H.
Defined.

Lemma unknown_command_two_entries_witness :
  ~ In (trim (toLowerCase "foobar")) keywords
  /\ exists e1 e2,
       logs (run (handleCommand "foobar") demo) = [e1; e2]
       /\ LogEntry.message e1 = "$ foobar"
       /\ LogEntry.type e2 = ty_error
       /\ LogEntry.message e2 =
          "Unknown command: foobar. Type 'help' for available commands.".
Proof.
  split; [exact foobar_not_keyword|].
  destruct (unknown_command_two_entries "foobar" demo foobar_not_keyword)
    as (e1 & e2 & L & _ & _ & M1 & T2 & M2 & _).
  exists e1, e2. repeat split; assumption.
Defined.

Lemma clear_empties_log_witness :
  trim (toLowerCase "  Clear ") = "clear"
  /\ logs (run (handleCommand "  Clear ") demo) = [].
Proof.
  split; [reflexivity|].
  apply (clear_empties_log "  Clear " demo). reflexivity.
Defined.

Lemma deploy_scan_keep_roster_witness :
  (trim (toLowerCase "DEPLOY") = "deploy" \/ trim (toLowerCase "DEPLOY") = "scan")
  /\ agents (run (handleCommand "DEPLOY") demo) = agents demo.
Proof.
  split; [left; reflexivity|].
  apply (deploy_scan_keep_roster "DEPLOY" demo). left; reflexivity.
Defined.

Lemma restart_idle_then_active_witness :
  trim (toLowerCase "restart") = "restart"
  /\ Forall (fun a => Agent.status a = st_idle)
            (agents (run (handleCommand "restart") demo))
  /\ timers (run (handleCommand "restart") demo)
     = (timers demo ++ [mkTimer 6 3000 CbRestartDone])%list.
Proof.
  split; [reflexivity|].
  destruct (restart_idle_then_active "restart" demo eq_refl)
    as (_ & I & _ & T & _).
  split; [exact I | exact T].
Defined.

Lemma status_lines_staggered_witness :
  (trim (toLowerCase " ls") = "status" \/ trim (toLowerCase " ls") = "ls")
  /\ exists new,
       timers (run (handleCommand " ls") demo) = (timers demo ++ new)%list
       /\ length new = length (agents demo).
Proof.
  split; [right; reflexivity|].
  destruct (status_lines_staggered " ls" demo (or_intror eq_refl))
    as (new & T & L & _).
  exists new. split; assumption.
Defined.

Lemma boot_sequence_witness :
  exists fs w,
    exec (repeat Fire 8) (mount 0 half) = Some (fs, w)
    /\ (bootComplete w = true <-> In (boot_done 0) fs)
    /\ forall pre t post,
         fs = (pre ++ (t, RanTick) :: post)%list ->
         In (boot_done 0) pre /\ 0 + 4000 <= t.
Proof.
  destruct (exec (repeat Fire 8) (mount 0 half)) as [[fs w]|] eqn:E;
    [|vm_compute in E; discriminate E].
  exists fs, w. split; [reflexivity|].
  destruct (boot_sequence 0 half) as (_ & _ & S).
  destruct (S (repeat Fire 8) fs w E) as (_ & F & _ & K).
  split; [exact F | exact K].
Defined.

(** ** Further properties of the page *)

(** X1.  [formatUptime] of less than a hundred hours is eight characters
    long, and two such uptimes that print alike are equal. *)
Theorem formatUptime_width_injective (s : Z) :
  0 <= s < 360000 ->
  String.length (formatUptime s) = 8%nat
  /\ forall s', 0 <= s' < 360000 -> formatUptime s = formatUptime s' -> s = s'.
Proof.
  intro H.
  destruct (formatUptime_shape s H)
    as (a1 & b1 & a2 & b2 & a3 & b3 & E & _ & _ & _ & _ & _ & _ & V & _).
  split; [rewrite E; reflexivity|].
  intros s' H' Eq.
  destruct (formatUptime_shape s' H')
    as (c1 & d1 & c2 & d2 & c3 & d3 & E' & _ & _ & _ & _ & _ & _ & V' & _).
  rewrite E, E' in Eq. inversion Eq; subst. reflexivity.
Qed.

(** X2.  The averages of the metrics panel: for a roster that is not empty
    and whose metrics are percentages, [avgCpu] and [avgMem] are integers
    of [0,100]; for an empty roster they are NaN. *)
Theorem averages_are_percentages (ags : list Agent.t) :
  ags <> [] ->
  Forall (fun a => percent (Agent.cpu a) /\ percent (Agent.memory a)) ags ->
  (exists c m, avgCpu ags = Some c /\ avgMem ags = Some m
               /\ 0 <= c <= 100 /\ 0 <= m <= 100)
  /\ avgCpu [] = None /\ avgMem [] = None.
Proof.
  intros Hne H. split; [|split; reflexivity].
  destruct (average_percent Agent.cpu ags Hne) as (c & Ec & Hc).
  { eapply Forall_impl; [|exact H]. cbn. tauto. }
  destruct (average_percent Agent.memory ags Hne) as (m & Em & Hm).
  { eapply Forall_impl; [|exact H]. cbn. tauto. }
  exists c, m. auto.
Qed.

(** X3.  After [restart] the panel counts no active agent and no error;
    once the completion has run it counts every agent active, and still no
    error. *)
Theorem restart_resets_counts (cmd : string) (w : World) :
  trim (toLowerCase cmd) = "restart" ->
  activeCount (agents (run (handleCommand cmd) w)) = 0%nat
  /\ errorCount (agents (run (handleCommand cmd) w)) = 0%nat
  /\ forall w1,
       activeCount (agents (run (run_callback CbRestartDone) w1))
       = length (agents w1)
       /\ errorCount (agents (run (run_callback CbRestartDone) w1)) = 0%nat.
Proof.
  intro H. rewrite (handleCommand_restart cmd H).
  split; [apply (count_with_status st_active st_idle)|].
  split; [apply (count_with_status st_error st_idle)|].
  intro w1. split.
  - apply (count_with_status st_active st_active).
  - apply (count_with_status st_error st_active).
Qed.

(** X4.  A tick changes no status, whatever is drawn: the counts of active
    agents and of errors are the same before and after. *)
Theorem tick_keeps_counts (w : World) :
  map Agent.status (agents (run tick w)) = map Agent.status (agents w)
  /\ activeCount (agents (run tick w)) = activeCount (agents w)
  /\ errorCount (agents (run tick w)) = errorCount (agents w).
Proof.
  destruct (tick_agents_any w) as [E|T]; [rewrite E; auto|].
  assert (S : Forall2 (fun a a' => Agent.status a' = Agent.status a)
                      (agents w) (agents (run tick w))).
  { eapply Forall2_impl; [|exact T]. intros a a' Ha. apply (ticked_status _ _ _ Ha). }
  split; [|split; apply count_same_status; exact S].
  apply (Forall2_map_eq Agent.status Agent.status). exact S.
Qed.

(** X5.  The history of the command line grows by exactly the lines it
    hands to the page, in order and as typed; none of them is blank. *)
Theorem history_records_submitted (es : list PromptEvent) (p : Prompt) :
  history (prompt_run es p) = (history p ++ submitted es p)%list
  /\ Forall (fun l => trim l <> "") (submitted es p).
Proof. split; [apply prompt_run_history | apply submitted_nonblank]. Qed.

(** X6.  Whatever is typed, recalled and submitted from an empty command
    line, the history index is -1 or points inside the history, and the
    history holds no blank line. *)
Theorem prompt_index_inside (es : list PromptEvent) :
  prompt_ok (prompt_run es prompt0).
Proof.
  apply prompt_run_ok. split; [cbn; lia | constructor].
Qed.

(** X7.  From a command line at rest, [k] presses of ArrowUp show the
    [k]-th most recent line of the history, the oldest one when [k] exceeds
    its length. *)
Theorem arrow_up_recalls (c : string) (h : list string) (k : nat) :
  h <> [] -> (0 < k)%nat ->
  let q := prompt_run (repeat (PKey ArrowUp) k) (mkPrompt c h (-1)) in
  command q = nth (Nat.min k (length h) - 1) (rev h) ""
  /\ historyIndex q = Z.of_nat (Nat.min k (length h)) - 1
  /\ history q = h.
Proof.
  intros Hne Hk q.
  assert (Hlen : (0 < length h)%nat) by (destruct h; [congruence | cbn; lia]).
  destruct (arrow_up_run k (mkPrompt c h (-1))) as (Eh & Ei & Ec).
  { exact Hne. }
  { cbn [history historyIndex]. lia. }
  cbn [history historyIndex] in Eh, Ei, Ec. fold q in Eh, Ei, Ec.
  specialize (Ec Hk). split; [|split; [lia | exact Eh]].
  rewrite Ec, Ei. unfold entry_or_empty.
  destruct (Z.ltb_spec (Z.of_nat (length h) - 1
                        - Z.min (-1 + Z.of_nat k) (Z.of_nat (length h) - 1)) 0);
    [lia|].
  rewrite rev_nth by lia. f_equal. lia.
Qed.

(** X8.  ArrowUp then ArrowDown does not bring back what was typed: after
    [k] presses of each, from a command line at rest, the input is empty. *)
Theorem arrows_drop_the_draft (c : string) (h : list string) (k : nat) :
  (0 < k)%nat ->
  let q := prompt_run (repeat (PKey ArrowUp) k ++ repeat (PKey ArrowDown) k)
                      (mkPrompt c h (-1)) in
  command q = "" /\ historyIndex q = -1 /\ history q = h.
Proof.
  intros Hk q. subst q. unfold prompt_run. rewrite fold_left_app.
  fold (prompt_run (repeat (PKey ArrowUp) k) (mkPrompt c h (-1))).
  set (p1 := prompt_run (repeat (PKey ArrowUp) k) (mkPrompt c h (-1))).
  fold (prompt_run (repeat (PKey ArrowDown) k) p1).
  assert (U : history p1 = h /\ -1 <= historyIndex p1 <= Z.of_nat k - 1).
  { destruct h as [|x r].
    - assert (E : forall n p, history p = [] ->
                  prompt_run (repeat (PKey ArrowUp) n) p = p).
      { induction n as [|n IH]; intros p Hp; [reflexivity|].
        cbn [repeat prompt_run fold_left prompt_step].
        fold (prompt_run (repeat (PKey ArrowUp) n) (handleKeyDown ArrowUp p)).
        assert (Ep : handleKeyDown ArrowUp p = p).
        { unfold handleKeyDown. rewrite Hp. reflexivity. }
        rewrite Ep. apply IH, Hp. }
      unfold p1. rewrite E by reflexivity. cbn [history historyIndex].
      split; [reflexivity | lia].
    - destruct (arrow_up_run k (mkPrompt c (x :: r) (-1))) as (Eh & Ei & _).
      { discriminate. }
      { cbn [history historyIndex length]. lia. }
      cbn [history historyIndex] in Eh, Ei. fold p1 in Eh, Ei. split; [exact Eh | lia]. }
  destruct U as [Uh Ui].
  destruct (arrow_down_run k p1) as (Eh & Ei & Ec); [lia|].
  assert (I : historyIndex (prompt_run (repeat (PKey ArrowDown) k) p1) = -1) by lia.
  split; [apply Ec; assumption|]. split; [exact I | congruence].
Qed.

(** X9.  The typewriter: after the interval has had [k] occasions to fire
    the header shows the first [min k n] units of its [n]-unit text with the
    cursor on; the interval is cleared on occasion [n + 1], which queues the
    hiding of the cursor 500ms later, and that callback turns it off. *)
Theorem typewriter_reveals {A} (text : list A) (start delay : Z) (k : nat) :
  let n := length text in
  let s := typewriter_after text start delay k in
  displayText s = firstn (Nat.min k n) text
  /\ showCursor s = true
  /\ tw_interval s = (k <=? n)%nat
  /\ tw_hide s = (if (k <=? n)%nat then None
                  else Some (start + Z.of_nat (S n) * delay + 500))
  /\ showCursor (typewriter_hide s) = false
  /\ displayText (typewriter_hide s) = displayText s.
Proof.
  intros n s.
  destruct (typewriter_after_spec text start delay k) as (_ & Ed & Ec & Er & Eh).
  fold n s in Ed, Ec, Er, Eh. repeat split; assumption.
Qed.


(** X11.  Clicking a card that is not selected selects that card and no
    other; clicking it again leaves no card selected.  This holds in every
    session, the identifiers of the roster being distinct. *)
Theorem click_selects_one_card (start : Z) (rnd : nat -> Q) (ins : list Input)
  (fs : list Fired) (w : World) (sel : option string) (a : Agent.t) :
  exec ins (mount start rnd) = Some (fs, w) ->
  In a (agents w) -> sel <> Some (Agent.id a) ->
  filter (isSelected (select sel (Agent.id a))) (agents w) = [a]
  /\ filter (isSelected (select (select sel (Agent.id a)) (Agent.id a)))
            (agents w) = [].
Proof.
  intros H Hin Hsel. destruct (health_exec ins _ _ _ H) as (S & _ & _).
  destruct (S (steady_mount start rnd)) as [I _ _ _ _].
  assert (Hn : NoDup (map Agent.id (agents w))).
  { rewrite I. unfold AGENT_IDS.
    repeat (constructor; [cbn; intro C;
                          repeat (destruct C as [C|C]; [discriminate C|]);
                          exact C|]).
    constructor. }
  assert (E1 : select sel (Agent.id a) = Some (Agent.id a)).
  { unfold select. destruct sel as [s|]; [|reflexivity].
    destruct (String.eqb_spec s (Agent.id a)); [congruence | reflexivity]. }
  rewrite E1. split; [apply filter_selected_one; assumption|].
  unfold select. rewrite String.eqb_refl.
  generalize (agents w). intro l. induction l; [reflexivity | exact IHl].
Qed.




(** X15.  A tick stamps the heartbeat of every agent that is not offline
    with the present and leaves that of an offline agent as it was. *)
Theorem tick_refreshes_ping (w : World) :
  unit_draws w ->
  Forall2 (fun a a' =>
             Agent.lastPing a' =
             match Agent.status a with
             | st_offline => Agent.lastPing a
             | _ => now w
             end)
          (agents w) (agents (run tick w)).
Proof.
  intro U. pose proof (tick_agents w U) as T.
  induction T as [|a a' l l' Ha _ IH]; constructor; [|exact IH].
  rewrite (ticked_ping _ _ _ Ha). destruct (Agent.status a); reflexivity.
Qed.

(** X16.  [help] echoes the line and queues the six help lines in order,
    the line of index [i] due [i * 50] ms after the submission, each an
    info entry from "SYSTEM"; the roster is untouched. *)
Theorem help_lines_staggered (cmd : string) (w : World) :
  trim (toLowerCase cmd) = "help" ->
  exists new,
    timers (run (handleCommand cmd) w) = (timers w ++ new)%list
    /\ length new = 6%nat
    /\ (forall i line, nth_error helpLines i = Some line ->
          nth_error new i
          = Some (mkTimer (next_timer w + i) (now w + Z.of_nat i * 50)
                          (CbAddLog "SYSTEM" ty_info line)))
    /\ logs (run (handleCommand cmd) w)
       = (slice_last 100 (logs w) ++ [log_entry w "USER" ty_info ("$ " ++ cmd)])%list
    /\ agents (run (handleCommand cmd) w) = agents w.
Proof.
  intro H. rewrite (handleCommand_help cmd H).
  unfold run, bind. rewrite addLog_eq. unfold forEach.
  rewrite forEach_staggered.
  cbn [snd timers queued logged agents logs next_timer now].
  eexists. split; [reflexivity|]. split; [apply staggered_length|].
  split; [|split; reflexivity].
  intros i line Hl. rewrite (staggered_nth _ _ _ _ _ _ _ _ Hl). reflexivity.
Qed.

(** X17.  No command cancels anything: a submission runs no callback and
    leaves every pending timer in the queue, in place; what it adds comes
    after them and is not due before the submission. *)
Theorem commands_never_cancel (t : Z) (cmd : string) (w : World)
  (fs : list Fired) (w' : World) :
  step (Submit t cmd) w = Some (fs, w') ->
  fs = []
  /\ exists new, timers w' = (timers w ++ new)%list
                 /\ Forall (fun x => t <= due x) new.
Proof.
  intro H. cbn [step] in H. destruct (can_submit t w); [|discriminate].
  inversion H; subst fs w'; clear H. split; [reflexivity|].
  rewrite commit_timers.
  destruct (sched_handleSubmit cmd (set_now t w)) as [_ _ _ _ _ (new & T & F)].
  exists new. split; [exact T|].
  eapply Forall_impl; [|exact F]. intros x (D & _). exact D.
Qed.


(** X19.  Of all commands only [restart] touches the tick: once the page
    has booted, a restart re-installs the interval, so that the next tick
    comes 1500ms after the command; any other command leaves the interval
    as it was. *)
Theorem only_restart_rearms_the_tick (cmd : string) (w : World) :
  bootComplete w = true ->
  (trim (toLowerCase cmd) = "restart" ->
   interval (commit w (run (handleCommand cmd) w))
   = Some (S (next_timer w), now w + 1500))
  /\ (trim (toLowerCase cmd) <> "restart" ->
      interval (commit w (run (handleCommand cmd) w)) = interval w).
Proof.
  intro B. split; intro H.
  - rewrite (handleCommand_restart cmd H).
    unfold commit, deps_changed, run at 1 2.
    unfold bind. rewrite !addLog_eq.
    cbn [snd fst setAgents bind getAgents ret putAgents setTimeout logged
         agents_gen bootComplete].
    replace (agents_gen w =? S (agents_gen w))%nat with false
      by (symmetry; apply Nat.eqb_neq; lia).
    rewrite orb_true_r. unfold run, tick_effect. cbn. rewrite B. reflexivity.
  - pose proof (deps_handleCommand cmd H w) as D.
    rewrite (deps_kept_commit _ _ D). apply (dk_interval _ _ D).
Qed.


(** X20.  With draws from [0,1) the page starts with six agents whose cpu
    and memory are integers of [0,99], whose uptime is below a day, whose
    heartbeat is less than ten seconds old, whose status and task come from
    the two pools, named after the name pool in order. *)
Theorem first_roster_generated (start : Z) (rnd : nat -> Q) :
  unit_source rnd ->
  Forall2 (generated start) [0; 1; 2; 3; 4; 5] (agents (mount start rnd)).
Proof.
  intro U. pose proof (mount_roster start rnd) as F.
  eapply Forall2_impl; [|exact F]. cbn. intros i a (_ & _ & G). apply G, U.
Qed.

(** ** The further properties on concrete pages *)

Lemma half_unit_source : unit_source half.
Proof. intro n. split; [unfold Qle | unfold Qlt]; cbn; lia. Defined.


Lemma formatUptime_width_injective_witness :
  0 <= 3661 < 360000 /\ String.length (formatUptime 3661) = 8%nat.
Proof.
  assert (H : 0 <= 3661 < 360000) by lia.
  split; [exact H|]. exact (proj1 (formatUptime_width_injective 3661 H)).
Defined.

Lemma averages_are_percentages_witness :
  two_agents <> []
  /\ exists c m, avgCpu two_agents = Some c /\ avgMem two_agents = Some m
                 /\ 0 <= c <= 100 /\ 0 <= m <= 100.
Proof.
  assert (N : two_agents <> []) by discriminate.
  split; [exact N|].
  refine (proj1 (averages_are_percentages two_agents N _)).
  repeat constructor; cbn; unfold Qle; cbn; lia.
Defined.

Lemma restart_resets_counts_witness :
  trim (toLowerCase "RESTART") = "restart"
  /\ activeCount (agents (run (handleCommand "RESTART") demo)) = 0%nat.
Proof.
  split; [reflexivity|].
  exact (proj1 (restart_resets_counts "RESTART" demo eq_refl)).
Defined.

Lemma arrow_up_recalls_witness :
  ["status"; "scan"] <> [] /\ (0 < 1)%nat
  /\ command (prompt_run (repeat (PKey ArrowUp) 1)
                         (mkPrompt "dra" ["status"; "scan"] (-1)))
     = "scan".
Proof.
  assert (N : ["status"; "scan"] <> []) by discriminate.
  assert (K : (0 < 1)%nat) by lia.
  split; [exact N|]. split; [exact K|].
  exact (proj1 (arrow_up_recalls "dra" ["status"; "scan"] 1 N K)).
Defined.

Lemma arrows_drop_the_draft_witness :
  (0 < 2)%nat
  /\ command (prompt_run (repeat (PKey ArrowUp) 2 ++ repeat (PKey ArrowDown) 2)
                         (mkPrompt "draft" ["status"; "scan"] (-1)))
     = "".
Proof.
  assert (K : (0 < 2)%nat) by lia.
  split; [exact K|].
  exact (proj1 (arrows_drop_the_draft "draft" ["status"; "scan"] 2 K)).
Defined.


Lemma click_selects_one_card_witness :
  In (nth 0 (agents (mount 0 half)) nobody) (agents (mount 0 half))
  /\ filter (isSelected
               (select None (Agent.id (nth 0 (agents (mount 0 half)) nobody))))
            (agents (mount 0 half))
     = [nth 0 (agents (mount 0 half)) nobody].
Proof.
  assert (I : In (nth 0 (agents (mount 0 half)) nobody) (agents (mount 0 half))).
  { apply nth_In.
    destruct (mount_state 0 half) as (_ & _ & _ & _ & _ & _ & _ & L).
    rewrite L. lia. }
  split; [exact I|].
  refine (proj1 (click_selects_one_card 0 half [] [] (mount 0 half) None _
                   eq_refl I _)).
  discriminate.
Defined.




Lemma tick_refreshes_ping_witness :
  unit_draws (mount 0 half)
  /\ Forall2 (fun a a' =>
                Agent.lastPing a' =
                match Agent.status a with
                | st_offline => Agent.lastPing a
                | _ => now (mount 0 half)
                end)
             (agents (mount 0 half)) (agents (run tick (mount 0 half))).
Proof.
  assert (U : unit_draws (mount 0 half)) by (apply half_unit_draws; reflexivity).
  split; [exact U|]. exact (tick_refreshes_ping (mount 0 half) U).
Defined.

Lemma help_lines_staggered_witness :
  trim (toLowerCase " Help ") = "help"
  /\ exists new,
       timers (run (handleCommand " Help ") demo) = (timers demo ++ new)%list
       /\ length new = 6%nat.
Proof.
  split; [reflexivity|].
  destruct (help_lines_staggered " Help " demo eq_refl) as (new & T & L & _).
  exists new. split; [exact T | exact L].
Defined.

Lemma commands_never_cancel_witness :
  exists fs w',
    step (Submit 100 "status") (mount 0 half) = Some (fs, w')
    /\ fs = []
    /\ exists new, timers w' = (timers (mount 0 half) ++ new)%list.
Proof.
  destruct (step (Submit 100 "status") (mount 0 half)) as [[fs w']|] eqn:E;
    [|vm_compute in E; discriminate E].
  exists fs, w'. split; [reflexivity|].
  destruct (commands_never_cancel 100 "status" (mount 0 half) fs w' E)
    as (F & new & T & _).
  split; [exact F|]. exists new. exact T.
Defined.


Lemma only_restart_rearms_the_tick_witness :
  bootComplete booted_page = true
  /\ interval (commit booted_page (run (handleCommand "restart") booted_page))
     = Some (8%nat, 6500).
Proof.
  split; [reflexivity|].
  exact (proj1 (only_restart_rearms_the_tick "restart" booted_page eq_refl)
               eq_refl).
Defined.

Lemma first_roster_generated_witness :
  unit_source half
  /\ Forall2 (generated 0) [0; 1; 2; 3; 4; 5] (agents (mount 0 half)).
Proof.
  split; [exact half_unit_source|].
  exact (first_roster_generated 0 half half_unit_source).
Defined.

